(** * beorg2journelly: the parse / merge / serialize pipeline

    A shallow embedding of [src/main.py]: the [Task] record, the two
    format parsers ([BeOrgParser], [JournellyParser]), their formatters
    and [TaskSynchronizer.synchronize], with the properties of the
    design specification stated over them.

    Conventions of the embedding.
    - A Python [str] is a [string]; each character stands for one code
      point below 256.
    - A [datetime] is the record of its seven integer fields (the code
      only builds naive datetimes, through [strptime]).
    - A [dict] keyed by content is a [gmap string Task]; the [set] of
      contents is a [gset string].  Python leaves the iteration order
      of a set unspecified, so the loop of [synchronize] runs over an
      explicit enumeration [order] of that set, and the properties are
      stated for every enumeration.
    - [ValueError] raised by [strptime] and caught by the parsers is
      the [None] of an [option]. *)

From Stdlib Require Import ZArith String Ascii List Lia Bool.
From stdpp Require Import base option list gmap strings sets.

Local Open Scope string_scope.
Local Open Scope list_scope.
Local Open Scope Z_scope.

(** ** The task model *)

Record datetime := mk_datetime {
  year : Z;
  month : Z;
  day : Z;
  hour : Z;
  minute : Z;
  second : Z;
  microsecond : Z
}.

Record Task := mk_Task {
  content : string;
  timestamp : datetime;
  is_completed : bool
}.

#[global] Instance datetime_eq_dec : EqDecision datetime.
Proof. solve_decision. Defined.

#[global] Instance Task_eq_dec : EqDecision Task.
Proof. solve_decision. Defined.

(** Naive datetimes compare as the tuples of their fields. *)
Definition datetime_fields (d : datetime) : list Z :=
  [year d; month d; day d; hour d; minute d; second d; microsecond d].

Fixpoint lex_ltb (a b : list Z) : bool :=
  match a, b with
  | x :: a', y :: b' => (x <? y) || ((x =? y) && lex_ltb a' b')
  | [], _ :: _ => true
  | _, _ => false
  end.

Definition datetime_ltb (a b : datetime) : bool :=
  lex_ltb (datetime_fields a) (datetime_fields b).

(** [a <= b] on datetimes: [b] is not earlier than [a]. *)
Definition datetime_le (a b : datetime) : Prop := datetime_ltb b a = false.

(** Python's [min(a, b)]: the first argument unless the second is
    strictly smaller. *)
Definition py_min (a b : datetime) : datetime :=
  if datetime_ltb b a then b else a.

(** ** Python strings *)

Definition code (c : ascii) : N := N_of_ascii c.

Definition newline : ascii := ascii_of_N 10.

(** [str.isspace] on code points below 256: the characters that
    [str.strip()] removes. *)
Definition is_space (c : ascii) : bool :=
  let n := code c in
  ((9 <=? n) && (n <=? 13) || (28 <=? n) && (n <=? 32)
   || (n =? 133) || (n =? 160))%N.

Fixpoint lstrip (s : string) : string :=
  match s with
  | String c s' => if is_space c then lstrip s' else s
  | EmptyString => EmptyString
  end.

Fixpoint rstrip (s : string) : string :=
  match s with
  | String c s' =>
      match rstrip s' with
      | EmptyString => if is_space c then EmptyString else String c EmptyString
      | r => String c r
      end
  | EmptyString => EmptyString
  end.

(** [s.strip()] *)
Definition strip (s : string) : string := rstrip (lstrip s).

(** [s.split('\n')]: never empty, [''.split('\n') == ['']]. *)
Fixpoint split_nl (s : string) : list string :=
  match s with
  | EmptyString => [EmptyString]
  | String c s' =>
      if Ascii.eqb c newline then EmptyString :: split_nl s'
      else match split_nl s' with
           | l :: ls => String c l :: ls
           | [] => [String c EmptyString]
           end
  end.

(** ['\n'.join(lines)] *)
Fixpoint join_nl (lines : list string) : string :=
  match lines with
  | [] => EmptyString
  | [l] => l
  | l :: ls => l +:+ String newline (join_nl ls)
  end.

(** [s.startswith(p)] *)
Definition startswith (p s : string) : bool := String.prefix p s.

(** [s[n:]] *)
Fixpoint str_from (n : nat) (s : string) : string :=
  match n, s with
  | S n', String _ s' => str_from n' s'
  | _, _ => s
  end.

(** ** The regular expressions of the parsers

    Both patterns are sequences of single-character classes, so
    [re.match] is a left-to-right check of the characters at the start
    of the line; what follows the pattern is not looked at. *)

Inductive cclass :=
| Lit (c : ascii)   (* a literal character *)
| Digit             (* \d *)
| Word.             (* \w *)

(** [\d] on code points below 256. *)
Definition is_digit (c : ascii) : bool :=
  ((48 <=? code c) && (code c <=? 57))%N.

(** [\w] on code points below 256: alphanumeric or underscore. *)
Definition is_word (c : ascii) : bool :=
  let n := code c in
  (is_digit c
   || (65 <=? n) && (n <=? 90) || (97 <=? n) && (n <=? 122) || (n =? 95)
   || (n =? 170) || (n =? 178) || (n =? 179) || (n =? 181)
   || (n =? 185) || (n =? 186) || (188 <=? n) && (n <=? 190)
   || (192 <=? n) && (n <=? 214) || (216 <=? n) && (n <=? 246)
   || (248 <=? n) && (n <=? 255))%N.

Definition cclass_matches (k : cclass) (c : ascii) : bool :=
  match k with
  | Lit l => Ascii.eqb c l
  | Digit => is_digit c
  | Word => is_word c
  end.

(** Match the classes [pat] at the start of [s]: the text matched and
    the text left. *)
Fixpoint match_classes (pat : list cclass) (s : string)
  : option (string * string) :=
  match pat with
  | [] => Some (EmptyString, s)
  | k :: pat' =>
      match s with
      | String c s' =>
          if cclass_matches k c then
            match match_classes pat' s' with
            | Some (m, rest) => Some (String c m, rest)
            | None => None
            end
          else None
      | EmptyString => None
      end
  end.

(** [re.match(pre (grp) post, s)] and [.group(1)]. *)
Definition re_match_group (pre grp post : list cclass) (s : string)
  : option string :=
  match match_classes pre s with
  | Some (_, s1) =>
      match match_classes grp s1 with
      | Some (g, s2) =>
          match match_classes post s2 with
          | Some _ => Some g
          | None => None
          end
      | None => None
      end
  | None => None
  end.

Definition lits (s : string) : list cclass := Lit <$> list_ascii_of_string s.

(** [\d{4}-\d{2}-\d{2} \w{3} \d{2}:\d{2}] *)
Definition timestamp_pattern : list cclass :=
  [Digit; Digit; Digit; Digit] ++ lits "-" ++ [Digit; Digit] ++ lits "-"
  ++ [Digit; Digit] ++ lits " " ++ [Word; Word; Word] ++ lits " "
  ++ [Digit; Digit] ++ lits ":" ++ [Digit; Digit].

(** ** Dates *)

Definition _is_leap (y : Z) : bool :=
  (y mod 4 =? 0) && (negb (y mod 100 =? 0) || (y mod 400 =? 0)).

Definition _DAYS_IN_MONTH : list Z :=
  [31; 28; 31; 30; 31; 30; 31; 31; 30; 31; 30; 31].

Definition _DAYS_BEFORE_MONTH : list Z :=
  [0; 31; 59; 90; 120; 151; 181; 212; 243; 273; 304; 334].

Definition _days_in_month (y m : Z) : Z :=
  if (m =? 2) && _is_leap y then 29
  else nth (Z.to_nat (m - 1)) _DAYS_IN_MONTH 0.

Definition _days_before_year (y : Z) : Z :=
  let y := y - 1 in y * 365 + y / 4 - y / 100 + y / 400.

Definition _days_before_month (y m : Z) : Z :=
  nth (Z.to_nat (m - 1)) _DAYS_BEFORE_MONTH 0
  + (if (2 <? m) && _is_leap y then 1 else 0).

Definition _ymd2ord (y m d : Z) : Z :=
  _days_before_year y + _days_before_month y m + d.

(** [date.weekday()]: Monday is 0. *)
Definition weekday (d : datetime) : Z :=
  (_ymd2ord (year d) (month d) (day d) + 6) mod 7.

(** The arguments [datetime(...)] accepts. *)
Definition valid_datetime (d : datetime) : bool :=
  (1 <=? year d) && (year d <=? 9999)
  && (1 <=? month d) && (month d <=? 12)
  && (1 <=? day d) && (day d <=? _days_in_month (year d) (month d))
  && (0 <=? hour d) && (hour d <=? 23)
  && (0 <=? minute d) && (minute d <=? 59)
  && (0 <=? second d) && (second d <=? 59)
  && (0 <=? microsecond d) && (microsecond d <=? 999999).

(** A timestamp as the file formats can carry it: minute precision. *)
Definition minute_precision (d : datetime) : bool :=
  valid_datetime d && (second d =? 0) && (microsecond d =? 0).

(** The weekday abbreviations of the C locale, the one a script that
    never calls [setlocale] runs in. *)
Definition day_abbr : list string :=
  ["Mon"; "Tue"; "Wed"; "Thu"; "Fri"; "Sat"; "Sun"].

Definition digit_char (k : Z) : ascii := ascii_of_N (48 + Z.to_N k).

Definition digit_val (c : ascii) : Z := Z.of_N (code c) - 48.

(** [int(s)] on a string of decimal digits. *)
Definition int_of_digits (s : string) : Z :=
  fold_left (fun acc c => 10 * acc + digit_val c) (list_ascii_of_string s) 0.

(** [%02d] and [%04d] *)
Definition pad2 (n : Z) : string :=
  String (digit_char (n / 10)) (String (digit_char (n mod 10)) EmptyString).

Definition pad4 (n : Z) : string :=
  String (digit_char (n / 1000)) (String (digit_char (n / 100 mod 10))
    (pad2 (n mod 100))).

(** [%Y] as the C library prints it for [strftime]: the decimal digits
    of the year, not padded (["999"] for the year 999); four digits from
    the year 1000 on. *)
Definition year_text (y : Z) : string :=
  if y <? 10 then String (digit_char y) EmptyString
  else if y <? 100 then pad2 y
  else if y <? 1000 then String (digit_char (y / 100)) (pad2 (y mod 100))
  else pad4 y.

(** [d.strftime('%Y-%m-%d %a %H:%M')] *)
Definition strftime (d : datetime) : string :=
  year_text (year d) +:+ "-" +:+ pad2 (month d) +:+ "-" +:+ pad2 (day d) +:+ " "
  +:+ nth (Z.to_nat (weekday d)) day_abbr "" +:+ " "
  +:+ pad2 (hour d) +:+ ":" +:+ pad2 (minute d).

Definition to_lower (c : ascii) : ascii :=
  if ((65 <=? code c) && (code c <=? 90))%N then ascii_of_N (code c + 32)
  else c.

Fixpoint lower (s : string) : string :=
  match s with
  | String c s' => String (to_lower c) (lower s')
  | EmptyString => EmptyString
  end.

(** What [%a] accepts: a weekday abbreviation, in any letter case. *)
Definition is_day_abbr (tok : string) : bool :=
  bool_decide (lower tok ∈ lower <$> day_abbr).

(** [s[start : start + len]] *)
Definition field (start len : nat) (s : string) : string :=
  String.substring start len s.

(** [datetime.strptime(s, '%Y-%m-%d %a %H:%M')]; [None] is
    [ValueError].  The parsers call it only on text that matched
    [timestamp_pattern], that is on twenty characters with digits,
    separators and three word characters at fixed places.  On such text
    the directives accept: any four digits for [%Y]; [01]..[12] for
    [%m]; [01]..[31] for [%d]; a weekday abbreviation in any case for
    [%a]; [00]..[23] for [%H]; [00]..[59] for [%M].  The weekday that
    was read is not used; the date must exist ([year >= 1], day within
    the month), seconds and microseconds are zero. *)
Definition strptime (s : string) : option datetime :=
  match match_classes timestamp_pattern s with
  | Some (_, EmptyString) =>
      let y := int_of_digits (field 0 4 s) in
      let m := int_of_digits (field 5 2 s) in
      let d := int_of_digits (field 8 2 s) in
      let a := field 11 3 s in
      let H := int_of_digits (field 15 2 s) in
      let M := int_of_digits (field 18 2 s) in
      if (1 <=? m) && (m <=? 12) && (1 <=? d) && (d <=? 31)
         && is_day_abbr a && (H <=? 23) && (M <=? 59)
         && (1 <=? y) && (d <=? _days_in_month y m)
      then Some (mk_datetime y m d H M 0 0)
      else None
  | _ => None
  end.

(** ** The parsers

    A parser object carries the list [warnings]; the functions below
    take the current list and return the new one.  The optional
    [verbose] printing of [_create_task_and_log] is console output and
    is left out: the function is the [Task] constructor.

    Both [_parse_tasks] methods are the same [while] loop around a
    different per-line function: [scan] is that loop.  The index [i]
    grows at every iteration, so [length lines] iterations are enough;
    [None] means the iteration budget ran out (it never does, see
    [scan_total]). *)

Definition _create_task_and_log (task_content : string) (timestamp : datetime)
    (is_completed : bool) : Task :=
  mk_Task task_content timestamp is_completed.

(** The result of a per-line function: the task if any, the number of
    extra lines consumed, the warnings. *)
Definition line_result : Type := option Task * nat * list string.

Definition line_parser : Type :=
  list string -> string -> list string -> nat -> line_result.

Fixpoint scan (parse_line : line_parser) (fuel : nat) (lines : list string)
    (i : nat) (tasks : list Task) (warnings : list string)
  : option (list Task * list string) :=
  match lines !! i with
  | None => Some (tasks, warnings)
  | Some l =>
      match fuel with
      | O => None
      | S fuel' =>
          let line := strip l in
          let '(task, lines_consumed, warnings') :=
            parse_line warnings line lines i in
          let tasks' :=
            match task with
            | Some t => tasks ++ [t]
            | None => tasks
            end in
          scan parse_line fuel' lines (i + 1 + lines_consumed) tasks' warnings'
      end
  end.

Module BeOrgParser.

(** A line that starts an entry: one of the two header markers. *)
Definition is_header (line : string) : bool :=
  startswith "* TODO " line || startswith "* DONE " line.

(** The timestamp text of a companion line, if it has the shape. *)
Definition timestamp_match (next_line : string) : option string :=
  re_match_group (lits "[") timestamp_pattern (lits "]") next_line.

(** The entry headed at line [i] is malformed: the companion line is
    missing, has not the timestamp shape, or carries a timestamp that
    does not parse. *)
Definition malformed (lines : list string) (i : nat) : Prop :=
  match lines !! (i + 1)%nat with
  | None => True
  | Some l =>
      match timestamp_match (strip l) with
      | None => True
      | Some timestamp_str => strptime timestamp_str = None
      end
  end.

Definition _parse_beorg_timestamp_and_create_task (warnings : list string)
    (task_content : string) (is_completed : bool) (lines : list string)
    (i : nat) (header_line : string) : line_result :=
  match lines !! (i + 1)%nat with
  | Some l =>
      let next_line := strip l in
      match re_match_group (lits "[") timestamp_pattern (lits "]")
              next_line with
      | Some timestamp_str =>
          match strptime timestamp_str with
          | Some timestamp =>
              let task :=
                _create_task_and_log task_content timestamp is_completed in
              (Some task, 1%nat, warnings)
          | None =>
              let msg :=
                "Skipping entry in BeOrg file due to invalid timestamp: '"
                +:+ timestamp_str +:+ "'" in
              (None, 0%nat, warnings ++ [msg])
          end
      | None =>
          let msg :=
            "Skipping malformed BeOrg task (timestamp missing or wrong format): '"
            +:+ header_line +:+ "'" in
          (None, 0%nat, warnings ++ [msg])
      end
  | None =>
      let msg :=
        "Skipping BeOrg task at end of file (timestamp missing): '"
        +:+ header_line +:+ "'" in
      (None, 0%nat, warnings ++ [msg])
  end.

Definition _parse_task_from_line : line_parser :=
  fun warnings line lines i =>
    if negb (startswith "* TODO " line || startswith "* DONE " line)
    then (None, 0%nat, warnings)
    else
      let is_completed := startswith "* DONE " line in
      let task_content := str_from 7 line in
      _parse_beorg_timestamp_and_create_task
        warnings task_content is_completed lines i line.

Definition _parse_tasks (warnings : list string) (content : string)
  : option (list Task * list string) :=
  let lines := split_nl (strip content) in
  scan _parse_task_from_line (length lines) lines 0 [] warnings.

Definition format_task (task : Task) : list string :=
  let status := if is_completed task then "DONE" else "TODO" in
  ["* " +:+ status +:+ " " +:+ content task;
   "[" +:+ strftime (timestamp task) +:+ "]"].

Definition _format_tasks (tasks : list Task) : list string :=
  flat_map format_task tasks.

End BeOrgParser.

Module JournellyParser.

(** The timestamp text of a header line, if the line starts with the
    header pattern. *)
Definition header_match (line : string) : option string :=
  re_match_group (lits "* [") timestamp_pattern (lits "] @ -") line.

Definition is_task_line (next_line : string) : bool :=
  startswith "- [ ] " next_line || startswith "- [X] " next_line.

(** The entry headed at line [i] with timestamp text [timestamp_str]
    is malformed: the timestamp does not parse, or the companion line
    is missing or starts with neither marker. *)
Definition malformed (timestamp_str : string) (lines : list string)
    (i : nat) : Prop :=
  strptime timestamp_str = None
  \/ match lines !! (i + 1)%nat with
     | None => True
     | Some l => is_task_line (strip l) = false
     end.

Definition _parse_journelly_task_from_line : line_parser :=
  fun warnings line lines i =>
    match re_match_group (lits "* [") timestamp_pattern (lits "] @ -")
            line with
    | None => (None, 0%nat, warnings)
    | Some timestamp_str =>
        match strptime timestamp_str with
        | Some timestamp =>
            match lines !! (i + 1)%nat with
            | Some l =>
                let next_line := strip l in
                if startswith "- [ ] " next_line
                   || startswith "- [X] " next_line
                then
                  let is_completed := startswith "- [X] " next_line in
                  let task_content := str_from 6 next_line in
                  let task :=
                    _create_task_and_log task_content timestamp
                      is_completed in
                  (Some task, 1%nat, warnings)
                else
                  let msg :=
                    "Skipping malformed Journelly entry (task line missing after timestamp): '"
                    +:+ line +:+ "'" in
                  (None, 0%nat, warnings ++ [msg])
            | None =>
                let msg :=
                  "Skipping malformed Journelly entry (task line missing at end of file): '"
                  +:+ line +:+ "'" in
                (None, 0%nat, warnings ++ [msg])
            end
        | None =>
            let msg :=
              "Skipping entry in Journelly file due to invalid timestamp: '"
              +:+ timestamp_str +:+ "'" in
            (None, 0%nat, warnings ++ [msg])
        end
    end.

Definition _parse_tasks (warnings : list string) (content : string)
  : option (list Task * list string) :=
  let lines := split_nl (strip content) in
  scan _parse_journelly_task_from_line (length lines) lines 0 [] warnings.

Definition format_task (task : Task) : list string :=
  let status := if is_completed task then "[X]" else "[ ]" in
  ["* [" +:+ strftime (timestamp task) +:+ "] @ -";
   "- " +:+ status +:+ " " +:+ content task].

Definition _format_tasks (tasks : list Task) : list string :=
  flat_map format_task tasks.

End JournellyParser.

(** ** Writing a file *)

(** [sorted(tasks, key=lambda t: t.timestamp, reverse=True)]: a stable
    sort, latest first, tasks of equal timestamp in their input order. *)
Fixpoint insert_desc (t : Task) (sorted : list Task) : list Task :=
  match sorted with
  | [] => [t]
  | u :: rest =>
      if datetime_ltb (timestamp t) (timestamp u)
      then u :: insert_desc t rest
      else t :: sorted
  end.

Definition sorted_desc (tasks : list Task) : list Task :=
  foldr insert_desc [] tasks.

(** The text [write_file] writes for the lines [lines]: joined by line
    feeds, with one final line feed unless there is no line. *)
Definition file_text (lines : list string) : string :=
  match lines with
  | [] => EmptyString
  | _ => join_nl lines +:+ String newline EmptyString
  end.

(** The text [write_file] writes for [tasks], given the formatter. *)
Definition write_file (format_tasks : list Task -> list string)
    (tasks : list Task) : string :=
  file_text (format_tasks (sorted_desc tasks)).

(** ** TaskSynchronizer.synchronize *)

Module TaskSynchronizer.

(** [{task.content: task for task in tasks}]: a later task replaces an
    earlier one under the same key. *)
Definition by_content (tasks : list Task) : gmap string Task :=
  foldl (fun d task => <[content task := task]> d) ∅ tasks.

(** [set(beorg_by_content.keys()) | set(journelly_by_content.keys())] *)
Definition all_contents (beorg_by_content journelly_by_content : gmap string Task)
  : gset string :=
  dom beorg_by_content ∪ dom journelly_by_content.

(** [order] is one way in which [for content in all_contents] may
    visit the set: every key once. *)
Definition set_iteration (s : gset string) (order : list string) : Prop :=
  order ≡ₚ elements s.

(** The body of the [for] loop, on the two result lists. *)
Definition sync_step (beorg_by_content journelly_by_content : gmap string Task)
    (acc : list Task * list Task) (c : string) : list Task * list Task :=
  let '(final_beorg_tasks, final_journelly_tasks) := acc in
  match beorg_by_content !! c, journelly_by_content !! c with
  | Some beorg_task, Some journelly_task =>
      let earlier_timestamp :=
        py_min (timestamp beorg_task) (timestamp journelly_task) in
      let completed :=
        is_completed beorg_task || is_completed journelly_task in
      let merged_task := mk_Task c earlier_timestamp completed in
      if completed then (final_beorg_tasks, final_journelly_tasks)
      else (final_beorg_tasks ++ [merged_task],
            final_journelly_tasks ++ [merged_task])
  | Some single_task, None
  | None, Some single_task =>
      if is_completed single_task
      then (final_beorg_tasks, final_journelly_tasks)
      else (final_beorg_tasks ++ [single_task],
            final_journelly_tasks ++ [single_task])
  | None, None => (final_beorg_tasks, final_journelly_tasks)
  end.

(** [synchronize], run with the set visited in the order [order]. *)
Definition synchronize (order : list string)
    (beorg_tasks journelly_tasks : list Task) : list Task * list Task :=
  let beorg_by_content := by_content beorg_tasks in
  let journelly_by_content := by_content journelly_tasks in
  foldl (sync_step beorg_by_content journelly_by_content) ([], []) order.

(** [synchronize(A, B)] may return [res]: some iteration order of the
    set of contents produces it. *)
Definition synchronize_yields (beorg_tasks journelly_tasks : list Task)
    (res : list Task * list Task) : Prop :=
  exists order,
    set_iteration
      (all_contents (by_content beorg_tasks) (by_content journelly_tasks))
      order
    /\ synchronize order beorg_tasks journelly_tasks = res.

(** The tasks of a collection that carry the content [c]. *)
Definition with_content (c : string) (tasks : list Task) : list Task :=
  filter (fun t => content t = c) tasks.

End TaskSynchronizer.

(** What one iteration of the loop appends (to both result lists). *)
Definition emitted (b j : gmap string Task) (c : string) : list Task :=
  snd (TaskSynchronizer.sync_step b j ([], []) c).

(** A collection as [synchronize] returns it: no completed task, no
    content twice. *)
Definition settled (R : list Task) : Prop :=
  NoDup (content <$> R) /\ forall t, t ∈ R -> is_completed t = false.

(** ** Tasks that the file formats can carry

    A content can be written on one line and read back when it has no
    line feed and does not end with whitespace (so it is not empty).
    A timestamp is written without loss when it is a valid date and
    time with no seconds; it is read back when, besides, its year is
    printed with four digits. *)

Fixpoint no_newline (s : string) : bool :=
  match s with
  | String c s' => negb (Ascii.eqb c newline) && no_newline s'
  | EmptyString => true
  end.

Fixpoint ends_nonspace (s : string) : bool :=
  match s with
  | EmptyString => false
  | String c EmptyString => negb (is_space c)
  | String _ s' => ends_nonspace s'
  end.

Definition storable (t : Task) : bool :=
  no_newline (content t) && ends_nonspace (content t)
  && minute_precision (timestamp t).

(** A task that is read back as it was written: its year also has the
    four digits the timestamp pattern asks for. *)
Definition legible (t : Task) : bool :=
  storable t && (1000 <=? year (timestamp t)).

(** The twenty characters of a timestamp text. *)
Definition ts_string (y1 y2 y3 y4 m1 m2 d1 d2 a1 a2 a3 H1 H2 M1 M2 : ascii)
  : string :=
  String y1 (String y2 (String y3 (String y4 (String "-"
  (String m1 (String m2 (String "-" (String d1 (String d2 (String " "
  (String a1 (String a2 (String a3 (String " "
  (String H1 (String H2 (String ":" (String M1 (String M2
  EmptyString))))))))))))))))))).

(** ** What a line contributes to the parsed tasks *)





(** ** Files and the command line

    The file system is a finite map from paths to texts, with the
    paths that cannot be opened for reading and those that cannot be
    opened for writing ([open] raises an [OSError] other than
    [FileNotFoundError]).  Opening a path for writing that succeeds
    replaces the text; texts are taken to decode as UTF-8.

    The map is keyed by the path string, so it takes two different
    strings for two files even when they name one.  A property that
    needs two files therefore asks for two paths that read differently
    before the run, which two names of one file never do.

    Files are opened in text mode.  Reading turns every line ending of
    the stored text (carriage return, line feed, or the two in a row)
    into one line feed; writing, on a system whose line separator is
    the line feed, stores the text as it is. *)

Definition carriage_return : ascii := ascii_of_N 13.

(** What [read()] returns for the stored text [s]. *)
Fixpoint universal_newlines (s : string) : string :=
  match s with
  | String c s' =>
      if Ascii.eqb c carriage_return then
        String newline
          match s' with
          | String c' s'' =>
              if Ascii.eqb c' newline then universal_newlines s''
              else universal_newlines s'
          | EmptyString => EmptyString
          end
      else String c (universal_newlines s')
  | EmptyString => EmptyString
  end.

(** A text without carriage return. *)
Fixpoint no_return (s : string) : bool :=
  match s with
  | String c s' => negb (Ascii.eqb c carriage_return) && no_return s'
  | EmptyString => true
  end.

Record file_system := mk_fs {
  files : gmap string string;
  unreadable : gset string;
  unwritable : gset string
}.

Inductive read_outcome :=
| FileNotFoundError
| IOError
| Contents (text : string).

(** [open(filepath, 'r')] and [f.read()] *)
Definition fs_read (fs : file_system) (filepath : string) : read_outcome :=
  if decide (filepath ∈ unreadable fs) then IOError
  else match files fs !! filepath with
       | Some text => Contents (universal_newlines text)
       | None => FileNotFoundError
       end.

(** [open(filepath, 'w')] and [f.write(text)]; [None] is [IOError]. *)
Definition fs_write (fs : file_system) (filepath text : string)
  : option file_system :=
  if decide (filepath ∈ unwritable fs) then None
  else Some (mk_fs (<[filepath := text]> (files fs))
               (unreadable fs) (unwritable fs)).

Inductive SyncError :=
| FileIOError (filepath : string).

Module BaseParser.

(** [parse_file]: a missing file is no task, an unreadable one raises
    [FileIOError]; the outer [option] is that of [_parse_tasks]. *)
Definition parse_file
    (_parse_tasks : list string -> string -> option (list Task * list string))
    (fs : file_system) (warnings : list string) (filepath : string)
  : option (SyncError + list Task * list string) :=
  match fs_read fs filepath with
  | FileNotFoundError => Some (inr ([], warnings))
  | IOError => Some (inl (FileIOError filepath))
  | Contents content => inr <$> _parse_tasks warnings content
  end.

(** [write_file]: sort, format, join and write. *)
Definition write_file (_format_tasks : list Task -> list string)
    (fs : file_system) (filepath : string) (tasks : list Task)
  : SyncError + file_system :=
  match fs_write fs filepath (write_file _format_tasks tasks) with
  | Some fs' => inr fs'
  | None => inl (FileIOError filepath)
  end.

End BaseParser.

(** What a run of [main] leaves: the exit status, the file system and
    the warnings it printed. *)
Record run_result := mk_run {
  exit_status : Z;
  fs_after : file_system;
  printed_warnings : list string
}.

(** [main], with the set of contents visited in the order [order].  An
    empty path makes [parser.error] end the program with status 2; any
    exception inside the [try] gives status 1. *)
Definition main (order : list string) (fs : file_system)
    (beorg_file journelly_file : string) : option run_result :=
  if String.eqb beorg_file "" || String.eqb journelly_file ""
  then Some (mk_run 2 fs [])
  else
    match BaseParser.parse_file BeOrgParser._parse_tasks fs [] beorg_file with
    | None => None
    | Some (inl _) => Some (mk_run 1 fs [])
    | Some (inr (beorg_tasks, beorg_warnings)) =>
        match BaseParser.parse_file JournellyParser._parse_tasks fs []
                journelly_file with
        | None => None
        | Some (inl _) => Some (mk_run 1 fs [])
        | Some (inr (journelly_tasks, journelly_warnings)) =>
            let all_warnings := beorg_warnings ++ journelly_warnings in
            let '(synced_beorg, synced_journelly) :=
              TaskSynchronizer.synchronize order beorg_tasks journelly_tasks in
            match BaseParser.write_file BeOrgParser._format_tasks fs
                    beorg_file synced_beorg with
            | inl _ => Some (mk_run 1 fs all_warnings)
            | inr fs1 =>
                match BaseParser.write_file JournellyParser._format_tasks fs1
                        journelly_file synced_journelly with
                | inl _ => Some (mk_run 1 fs1 all_warnings)
                | inr fs2 => Some (mk_run 0 fs2 all_warnings)
                end
            end
        end
    end.

(** ** Vocabulary for the further properties *)

(** A per-line function as both parsers have it: a task comes with one
    extra line consumed, that line exists and no warning is added; no
    task comes with no extra line and at most one more warning. *)
Definition careful (parse_line : line_parser) : Prop :=
  forall w line lines i,
    match parse_line w line lines i with
    | (Some _, n, w') => n = 1%nat /\ w' = w /\ is_Some (lines !! (i + 1)%nat)
    | (None, n, w') =>
        n = 0%nat /\ exists new, w' = w ++ new /\ (length new <= 1)%nat
    end.

(** Latest first: no task is followed by a later one. *)
Fixpoint descending (tasks : list Task) : Prop :=
  match tasks with
  | t :: (u :: _) as rest =>
      datetime_ltb (timestamp t) (timestamp u) = false /\ descending rest
  | _ => True
  end.

(** * Properties *)

#[local] Arguments String.append !_ _ / : simpl nomatch.

(** ** String append *)

Lemma append_nil_r s : s +:+ "" = s.
Proof. induction s as [|c s IH]; simpl; [done|]. by rewrite IH. Qed.


(** ** Ordering of timestamps *)

Lemma lex_ltb_irrefl a : lex_ltb a a = false.
Proof.
  induction a as [|x a IH]; simpl; [done|].
  rewrite Z.ltb_irrefl, Z.eqb_refl, IH. done.
Qed.

Lemma lex_ltb_asym a b : lex_ltb a b = true -> lex_ltb b a = false.
Proof.
  revert b. induction a as [|x a IH]; intros [|y b]; simpl; try done.
  destruct (Z.ltb_spec x y), (Z.eqb_spec x y), (Z.ltb_spec y x),
    (Z.eqb_spec y x); simpl; try lia; auto; try done.
Qed.

Lemma py_min_le_l a b : datetime_le (py_min a b) a.
Proof.
  unfold datetime_le, py_min, datetime_ltb.
  destruct (lex_ltb (datetime_fields b) (datetime_fields a)) eqn:E.
  - by apply lex_ltb_asym.
  - apply lex_ltb_irrefl.
Qed.

Lemma py_min_le_r a b : datetime_le (py_min a b) b.
Proof.
  unfold datetime_le, py_min, datetime_ltb.
  destruct (lex_ltb (datetime_fields b) (datetime_fields a)) eqn:E.
  - apply lex_ltb_irrefl.
  - done.
Qed.

Lemma py_min_cases a b : py_min a b = a \/ py_min a b = b.
Proof. unfold py_min. destruct (datetime_ltb b a); auto. Qed.

Lemma py_min_idem a : py_min a a = a.
Proof. destruct (py_min_cases a a); done. Qed.

(** ** The content-to-task mapping *)

Section by_content_facts.
Import TaskSynchronizer.

Lemma by_content_snoc l t :
  by_content (l ++ [t]) = <[content t := t]> (by_content l).
Proof. unfold by_content. by rewrite foldl_app. Qed.

Lemma with_content_snoc c l t :
  with_content c (l ++ [t]) =
  with_content c l ++ (if decide (content t = c) then [t] else []).
Proof.
  unfold with_content. by rewrite filter_app.
Qed.

Lemma by_content_lookup l c :
  by_content l !! c = last (with_content c l).
Proof.
  induction l as [|t l IH] using rev_ind; [done|].
  rewrite by_content_snoc, with_content_snoc.
  destruct (decide (content t = c)) as [->|Hne].
  - by rewrite lookup_insert_eq, last_snoc.
  - by rewrite lookup_insert_ne, app_nil_r.
Qed.

Lemma by_content_key l c t : by_content l !! c = Some t -> content t = c.
Proof.
  rewrite by_content_lookup. intros H.
  apply last_Some in H as [l' H].
  assert (t ∈ with_content c l) as Hin by (rewrite H; set_solver).
  unfold with_content in Hin. by apply list_elem_of_filter in Hin as [? _].
Qed.

Lemma by_content_elem l c t : by_content l !! c = Some t -> t ∈ l.
Proof.
  rewrite by_content_lookup. intros H.
  apply last_Some in H as [l' H].
  assert (t ∈ with_content c l) as Hin by (rewrite H; set_solver).
  unfold with_content in Hin. by apply list_elem_of_filter in Hin as [_ ?].
Qed.

Lemma by_content_None l c :
  by_content l !! c = None <-> forall t, t ∈ l -> content t <> c.
Proof.
  rewrite by_content_lookup, last_None. unfold with_content. split.
  - intros H t Hin Hc.
    assert (t ∈ filter (fun t => content t = c) l) as Hf
      by (by apply list_elem_of_filter).
    rewrite H in Hf. by apply not_elem_of_nil in Hf.
  - intros H. destruct (filter _ l) as [|t l'] eqn:E; [done|].
    assert (t ∈ filter (fun t => content t = c) l) as Hf
      by (rewrite E; set_solver).
    apply list_elem_of_filter in Hf as [Hc Hin]. by destruct (H t Hin).
Qed.
End by_content_facts.

(** ** The synchronizer loop *)

Section synchronize_facts.
Import TaskSynchronizer.

Lemma sync_step_emitted b j fb fj c :
  sync_step b j (fb, fj) c = (fb ++ emitted b j c, fj ++ emitted b j c).
Proof.
  unfold emitted, sync_step.
  destruct (b !! c) as [bt|], (j !! c) as [jt|]; simpl;
    repeat match goal with |- context [if ?x then _ else _] => destruct x end;
    simpl; by rewrite ?app_nil_r.
Qed.

Lemma foldl_sync_step b j order fb fj :
  foldl (sync_step b j) (fb, fj) order =
  (fb ++ flat_map (emitted b j) order, fj ++ flat_map (emitted b j) order).
Proof.
  revert fb fj.
  induction order as [|c order IH]; intros fb fj; cbn [foldl flat_map].
  - by rewrite !app_nil_r.
  - rewrite sync_step_emitted, IH. by rewrite <- !app_assoc.
Qed.

Lemma synchronize_emitted order A B :
  synchronize order A B =
  (flat_map (emitted (by_content A) (by_content B)) order,
   flat_map (emitted (by_content A) (by_content B)) order).
Proof. unfold synchronize. by rewrite foldl_sync_step. Qed.

Lemma emitted_content A B c t :
  t ∈ emitted (by_content A) (by_content B) c -> content t = c.
Proof.
  unfold emitted, sync_step.
  destruct (by_content A !! c) as [bt|] eqn:Eb,
           (by_content B !! c) as [jt|] eqn:Ej; simpl;
    repeat match goal with |- context [if ?x then _ else _] => destruct x end;
    simpl; intros Hin; try (by apply not_elem_of_nil in Hin);
    apply list_elem_of_singleton in Hin as ->;
    eauto using by_content_key.
Qed.

Lemma emitted_incomplete b j c t :
  t ∈ emitted b j c -> is_completed t = false.
Proof.
  unfold emitted, sync_step.
  destruct (b !! c) as [bt|], (j !! c) as [jt|]; simpl;
    repeat match goal with
           | |- context [if ?x then _ else _] => destruct x eqn:?
           end;
    simpl; intros Hin; try (by apply not_elem_of_nil in Hin);
    by apply list_elem_of_singleton in Hin as ->.
Qed.

Lemma emitted_short b j c : (length (emitted b j c) <= 1)%nat.
Proof.
  unfold emitted, sync_step.
  destruct (b !! c) as [bt|], (j !! c) as [jt|]; simpl;
    repeat match goal with |- context [if ?x then _ else _] => destruct x end;
    simpl; lia.
Qed.

(** Filtering the output of a loop over distinct keys by one key
    leaves what that key's iteration appended. *)
Lemma with_content_flat_map (f : string -> list Task) order c :
  NoDup order ->
  (forall c' t, t ∈ f c' -> content t = c') ->
  with_content c (flat_map f order) = if decide (c ∈ order) then f c else [].
Proof.
  intros Hnd Hf. unfold with_content.
  assert (forall c', c' <> c -> filter (fun t => content t = c) (f c') = [])
    as Hother.
  { intros c' Hne. destruct (filter _ (f c')) as [|t l] eqn:E; [done|].
    assert (t ∈ filter (fun t => content t = c) (f c')) as Hin
      by (rewrite E; set_solver).
    apply list_elem_of_filter in Hin as [Hc Hin]. apply Hf in Hin. congruence. }
  assert (filter (fun t => content t = c) (f c) = f c) as Hsame.
  { assert (forall l : list Task, (forall t, t ∈ l -> content t = c) ->
              filter (fun t => content t = c) l = l) as Hall.
    { induction l as [|t l IH]; intros Hl; [done|].
      rewrite filter_cons.
      rewrite decide_True by (apply Hl, elem_of_cons; auto).
      f_equal. apply IH. intros t' Ht'. apply Hl, elem_of_cons; auto. }
    apply Hall. intros t. apply Hf. }
  induction Hnd as [|c' order Hnotin Hnd IH]; simpl; [done|].
  rewrite filter_app, IH.
  destruct (decide (c' = c)) as [->|Hne].
  - rewrite Hsame. destruct (decide (c ∈ order)); [done|].
    destruct (decide (c ∈ c :: order)) as [|Hn]; [by rewrite app_nil_r|].
    destruct Hn. apply elem_of_cons; auto.
  - rewrite Hother by done. simpl.
    destruct (decide (c ∈ order)), (decide (c ∈ c' :: order)) as [Hc|Hc];
      try done.
    + destruct Hc. apply elem_of_cons; auto.
    + apply elem_of_cons in Hc as [?|?]; congruence.
Qed.

Lemma set_iteration_NoDup s order : set_iteration s order -> NoDup order.
Proof.
  unfold set_iteration. intros H. rewrite H. apply NoDup_elements.
Qed.

Lemma set_iteration_elem s order c :
  set_iteration s order -> c ∈ order <-> c ∈ s.
Proof.
  unfold set_iteration. intros H. rewrite H. apply elem_of_elements.
Qed.

Lemma all_contents_elem A B c :
  c ∈ all_contents (by_content A) (by_content B) <->
  is_Some (by_content A !! c) \/ is_Some (by_content B !! c).
Proof. unfold all_contents. rewrite elem_of_union, !elem_of_dom. done. Qed.

(** The tasks with content [c] in either result are those appended
    by the iteration for [c]. *)
Lemma with_content_synchronize A B order c :
  set_iteration (all_contents (by_content A) (by_content B)) order ->
  is_Some (by_content A !! c) \/ is_Some (by_content B !! c) ->
  with_content c (fst (synchronize order A B)) =
    emitted (by_content A) (by_content B) c
  /\ with_content c (snd (synchronize order A B)) =
    emitted (by_content A) (by_content B) c.
Proof.
  intros Hit Hin. rewrite synchronize_emitted. simpl.
  rewrite with_content_flat_map;
    [|by eapply set_iteration_NoDup|by intros; eapply emitted_content].
  rewrite decide_True; [done|].
  eapply set_iteration_elem; [done|]. by apply all_contents_elem.
Qed.
End synchronize_facts.

(** ** Synchronizing a result again *)

Section resync_facts.
Import TaskSynchronizer.

Lemma flat_map_elem {X Y} (f : X -> list Y) l y :
  y ∈ flat_map f l <-> exists x, x ∈ l /\ y ∈ f x.
Proof. rewrite !list_elem_of_In, in_flat_map. by setoid_rewrite list_elem_of_In. Qed.

Lemma synchronize_settled A B order :
  NoDup order ->
  settled (flat_map (emitted (by_content A) (by_content B)) order).
Proof.
  intros Hnd. split.
  - induction Hnd as [|c order Hnotin Hnd IH]; cbn [flat_map]; [constructor|].
    rewrite fmap_app. apply NoDup_app. split; [|split; [|done]].
    + pose proof (emitted_short (by_content A) (by_content B) c) as Hlen.
      destruct (emitted _ _ c) as [|t [|t' l]]; simpl in *;
        [constructor| |lia].
      apply NoDup_singleton.
    + intros k Hk Hk'.
      apply list_elem_of_fmap in Hk as (t & -> & Ht).
      apply list_elem_of_fmap in Hk' as (t' & Heq & Ht').
      apply emitted_content in Ht.
      apply flat_map_elem in Ht' as (c' & Hc' & Ht').
      apply emitted_content in Ht'. congruence.
  - intros t Ht. apply flat_map_elem in Ht as (c & _ & Ht).
    by eapply emitted_incomplete.
Qed.

Lemma settled_lookup R t :
  NoDup (content <$> R) -> t ∈ R -> by_content R !! content t = Some t.
Proof.
  intros Hnd Hin.
  destruct (by_content R !! content t) as [t'|] eqn:E.
  - pose proof (by_content_key _ _ _ E) as Hk.
    pose proof (by_content_elem _ _ _ E) as Hin'.
    f_equal. clear E. induction R as [|x R IH]; [by apply not_elem_of_nil in Hin|].
    rewrite fmap_cons in Hnd. apply NoDup_cons in Hnd as [Hx Hnd].
    apply elem_of_cons in Hin as [->|Hin], Hin' as [->|Hin']; auto.
    + destruct Hx. rewrite <- Hk. by apply list_elem_of_fmap_2.
    + destruct Hx. rewrite Hk. by apply list_elem_of_fmap_2.
  - apply by_content_None with (t := t) in E; done.
Qed.

Lemma settled_emitted R t :
  settled R -> t ∈ R ->
  emitted (by_content R) (by_content R) (content t) = [t].
Proof.
  intros [Hnd Hinc] Hin. unfold emitted, sync_step.
  rewrite settled_lookup by done.
  pose proof (Hinc t Hin) as Ht. rewrite Ht. cbn.
  rewrite py_min_idem. destruct t as [c ts done]. cbn in *. by subst.
Qed.

Lemma flat_map_singletons (f : string -> list Task) R :
  (forall t, t ∈ R -> f (content t) = [t]) ->
  flat_map f (content <$> R) = R.
Proof.
  induction R as [|t R IH]; intros Hf; [done|].
  rewrite fmap_cons. cbn [flat_map].
  rewrite Hf by (apply elem_of_cons; auto). cbn. f_equal.
  apply IH. intros t' Ht'. apply Hf, elem_of_cons; auto.
Qed.

Lemma settled_iteration R order :
  NoDup (content <$> R) ->
  set_iteration (all_contents (by_content R) (by_content R)) order <->
  order ≡ₚ content <$> R.
Proof.
  intros Hnd. unfold set_iteration.
  assert (elements (all_contents (by_content R) (by_content R))
            ≡ₚ content <$> R) as Hperm.
  { apply NoDup_Permutation; [apply NoDup_elements|done|].
    intros c. rewrite elem_of_elements, all_contents_elem. split.
    - intros H. assert (is_Some (by_content R !! c)) as [t Ht] by tauto.
      rewrite <- (by_content_key _ _ _ Ht).
      apply list_elem_of_fmap_2. by eapply by_content_elem.
    - intros Hc. apply list_elem_of_fmap in Hc as (t & -> & Ht).
      left. rewrite settled_lookup by done. eauto. }
  by rewrite Hperm.
Qed.

Lemma synchronize_settled_perm R order :
  settled R ->
  set_iteration (all_contents (by_content R) (by_content R)) order ->
  flat_map (emitted (by_content R) (by_content R)) order ≡ₚ R.
Proof.
  intros HR Hit. apply settled_iteration in Hit; [|apply HR].
  rewrite (Permutation_flat_map _ Hit).
  rewrite flat_map_singletons; [done|].
  intros t Ht. by apply settled_emitted.
Qed.
End resync_facts.

(** ** Claims on the synchronizer *)

Section synchronizer_claims.
Import TaskSynchronizer.

(** C1.  A content [c] held by both mappings (that is, after the
    last-wins collapse of duplicates) resolves to the single merged
    task [mk_Task c (min tsA tsB) (doneA || doneB)], whose timestamp is
    the earlier of the two.  When the merged task is completed, no
    task with content [c] is in either result; when it is not, the
    merged task is the one task with content [c] in each result.
    This holds for every order in which the set of contents may be
    visited. *)
Theorem sync_present_in_both (A B : list Task) (order : list string)
    (c : string) (ta tb : Task) :
  set_iteration (all_contents (by_content A) (by_content B)) order ->
  by_content A !! c = Some ta ->
  by_content B !! c = Some tb ->
  let merged :=
    mk_Task c (py_min (timestamp ta) (timestamp tb))
      (is_completed ta || is_completed tb) in
  let res := synchronize order A B in
  (datetime_le (timestamp merged) (timestamp ta)
   /\ datetime_le (timestamp merged) (timestamp tb)
   /\ (timestamp merged = timestamp ta \/ timestamp merged = timestamp tb))
  /\ (is_completed merged = true ->
      with_content c (fst res) = [] /\ with_content c (snd res) = [])
  /\ (is_completed merged = false ->
      with_content c (fst res) = [merged]
      /\ with_content c (snd res) = [merged]).
Proof.
  intros Hit Ha Hb merged res.
  split; [|split].
  - subst merged. cbn [timestamp].
    auto using py_min_le_l, py_min_le_r, py_min_cases.
  - intros Hdone. subst res merged.
    destruct (with_content_synchronize A B order c Hit) as [-> ->];
      [left; by rewrite Ha|].
    unfold emitted, sync_step. rewrite Ha, Hb. cbn [is_completed] in Hdone.
    by rewrite Hdone.
  - intros Hdone. subst res merged.
    destruct (with_content_synchronize A B order c Hit) as [-> ->];
      [left; by rewrite Ha|].
    unfold emitted, sync_step. rewrite Ha, Hb. cbn [is_completed] in Hdone.
    by rewrite Hdone.
Qed.

Lemma sync_present_in_both_witness :
  let A := [mk_Task "Task D" (mk_datetime 2023 1 5 0 0 0 0) false] in
  let B := [mk_Task "Task D" (mk_datetime 2023 1 4 0 0 0 0) false] in
  with_content "Task D" (fst (synchronize ["Task D"] A B)) =
    [mk_Task "Task D" (mk_datetime 2023 1 4 0 0 0 0) false]
  /\ with_content "Task D" (snd (synchronize ["Task D"] A B)) =
    [mk_Task "Task D" (mk_datetime 2023 1 4 0 0 0 0) false].
Proof.
  intros A B.
  refine (proj2 (proj2 (sync_present_in_both A B ["Task D"] "Task D"
    (mk_Task "Task D" (mk_datetime 2023 1 5 0 0 0 0) false)
    (mk_Task "Task D" (mk_datetime 2023 1 4 0 0 0 0) false) _ _ _)) _).
  - unfold set_iteration. vm_compute. reflexivity.
  - vm_compute. reflexivity.
  - vm_compute. reflexivity.
  - reflexivity.
Defined.

(** C2.  A content [c] held by exactly one of the two mappings, with
    source task [t]: when [t] is completed no task with content [c]
    is in either result; when it is not, [t] itself, unchanged, is
    the one task with content [c] in each result. *)
Theorem sync_present_in_one (A B : list Task) (order : list string)
    (c : string) (t : Task) :
  set_iteration (all_contents (by_content A) (by_content B)) order ->
  (by_content A !! c = Some t /\ by_content B !! c = None)
  \/ (by_content A !! c = None /\ by_content B !! c = Some t) ->
  let res := synchronize order A B in
  (is_completed t = true ->
   with_content c (fst res) = [] /\ with_content c (snd res) = [])
  /\ (is_completed t = false ->
      with_content c (fst res) = [t] /\ with_content c (snd res) = [t]).
Proof.
  intros Hit Hone res. subst res.
  assert (is_Some (by_content A !! c) \/ is_Some (by_content B !! c)) as Hin.
  { destruct Hone as [[-> _]|[_ ->]]; eauto. }
  destruct (with_content_synchronize A B order c Hit Hin) as [-> ->].
  unfold emitted, sync_step.
  destruct Hone as [[-> ->]|[-> ->]]; cbn [snd];
    split; intros ->; done.
Qed.

Lemma sync_present_in_one_witness :
  let task_a := mk_Task "Task A" (mk_datetime 2023 1 1 0 0 0 0) false in
  with_content "Task A" (fst (synchronize ["Task A"] [task_a] [])) = [task_a]
  /\ with_content "Task A" (snd (synchronize ["Task A"] [task_a] []))
     = [task_a].
Proof.
  intros task_a.
  refine (proj2 (sync_present_in_one [task_a] [] ["Task A"] "Task A"
    task_a _ _) _).
  - unfold set_iteration. vm_compute. reflexivity.
  - left. split; vm_compute; reflexivity.
  - reflexivity.
Defined.

(** C4.  The mapping step keeps, for each content [c], one task: the
    last task of the collection that carries [c].  So of two or more
    tasks with the same content the one latest in parse order
    survives. *)
Theorem duplicate_collapse_last_wins (tasks : list Task) (c : string) :
  by_content tasks !! c = last (with_content c tasks)
  /\ forall before t after,
      tasks = before ++ t :: after ->
      content t = c ->
      (forall t', t' ∈ after -> content t' <> c) ->
      by_content tasks !! c = Some t.
Proof.
  split; [apply by_content_lookup|].
  intros before t after -> Hc Hafter.
  rewrite by_content_lookup. unfold with_content.
  rewrite filter_app, filter_cons, decide_True by done.
  assert (filter (fun t => content t = c) after = []) as ->.
  { destruct (filter _ after) as [|t' l] eqn:E; [done|].
    assert (t' ∈ filter (fun t => content t = c) after) as Hin
      by (rewrite E; apply elem_of_cons; auto).
    apply list_elem_of_filter in Hin as [Hc' Hin].
    by destruct (Hafter t' Hin). }
  apply last_snoc.
Qed.

Lemma duplicate_collapse_last_wins_witness :
  let early := mk_Task "Task D" (mk_datetime 2023 1 4 0 0 0 0) false in
  let late := mk_Task "Task D" (mk_datetime 2023 1 5 0 0 0 0) true in
  by_content [early; late] !! "Task D" = Some late.
Proof.
  intros early late.
  refine (proj2 (duplicate_collapse_last_wins [early; late] "Task D")
    [early] late [] _ _ _).
  - reflexivity.
  - reflexivity.
  - intros t' Hin. by apply not_elem_of_nil in Hin.
Defined.

(** C10.  The two result lists are equal as sequences, whatever the
    inputs and the order of iteration. *)
Theorem sync_results_equal (A B : list Task) (order : list string) :
  fst (synchronize order A B) = snd (synchronize order A B).
Proof. by rewrite synchronize_emitted. Qed.
(** C5.  If [synchronize(A, B)] yields [(A', B')], then
    [synchronize(A', B')] yields [(A', B')] again, and whatever the
    order in which the second run visits the contents, its results
    hold exactly the tasks of [A'] and of [B']: nothing is removed
    and nothing is added. *)
Theorem sync_idempotent (A B A' B' : list Task) :
  synchronize_yields A B (A', B') ->
  synchronize_yields A' B' (A', B')
  /\ forall res,
      synchronize_yields A' B' res -> fst res ≡ₚ A' /\ snd res ≡ₚ B'.
Proof.
  intros (order & Hit & Hres).
  rewrite synchronize_emitted in Hres.
  injection Hres as HA HB. subst B'.
  assert (settled A') as HR.
  { rewrite <- HA. apply synchronize_settled.
    by eapply set_iteration_NoDup. }
  rewrite HA.
  split.
  - exists (content <$> A'). split.
    + apply settled_iteration; [apply HR|done].
    + rewrite synchronize_emitted.
      rewrite flat_map_singletons; [done|].
      intros t Ht. by apply settled_emitted.
  - intros res (order' & Hit' & <-).
    rewrite synchronize_emitted. cbn [fst snd].
    split; by apply synchronize_settled_perm.
Qed.

Lemma sync_idempotent_witness :
  let task_a := mk_Task "Task A" (mk_datetime 2023 1 1 0 0 0 0) false in
  let task_c_done := mk_Task "Task C" (mk_datetime 2023 1 3 0 0 0 0) true in
  synchronize_yields [task_a; task_c_done] [task_a] ([task_a], [task_a])
  /\ synchronize_yields [task_a] [task_a] ([task_a], [task_a]).
Proof.
  intros task_a task_c_done.
  assert (synchronize_yields [task_a; task_c_done] [task_a]
            ([task_a], [task_a])) as Hy.
  { exists (elements (all_contents (by_content [task_a; task_c_done])
                                   (by_content [task_a]))).
    split; [unfold set_iteration; reflexivity|]. vm_compute. reflexivity. }
  split; [exact Hy|].
  exact (proj1 (sync_idempotent [task_a; task_c_done] [task_a]
                  [task_a] [task_a] Hy)).
Defined.
End synchronizer_claims.

(** ** The scanning loop *)

Section scan_facts.
Variable parse_line : line_parser.

Lemma scan_end fuel lines i tasks w :
  lines !! i = None -> scan parse_line fuel lines i tasks w = Some (tasks, w).
Proof. intros H. destruct fuel; simpl; by rewrite H. Qed.

Lemma scan_step fuel lines i l tasks w :
  lines !! i = Some l ->
  scan parse_line (S fuel) lines i tasks w =
  let '(task, lines_consumed, w') := parse_line w (strip l) lines i in
  scan parse_line fuel lines (i + 1 + lines_consumed)
    (match task with Some t => tasks ++ [t] | None => tasks end) w'.
Proof. intros H. simpl. by rewrite H. Qed.

(** The loop ends within [length lines - i] iterations. *)
Lemma scan_total fuel lines i tasks w :
  (length lines - i <= fuel)%nat ->
  is_Some (scan parse_line fuel lines i tasks w).
Proof.
  revert i tasks w. induction fuel as [|fuel IH]; intros i tasks w Hfuel.
  - rewrite scan_end; [eauto|]. apply lookup_ge_None. lia.
  - destruct (lines !! i) as [l|] eqn:E; [|rewrite scan_end; eauto].
    rewrite (scan_step _ _ _ l) by done.
    destruct (parse_line w (strip l) lines i) as [[task n] w'].
    apply IH. apply lookup_lt_Some in E. lia.
Qed.

(** More iterations than needed change nothing. *)
Lemma scan_fuel fuel fuel' lines i tasks w :
  (length lines - i <= fuel)%nat -> (length lines - i <= fuel')%nat ->
  scan parse_line fuel lines i tasks w = scan parse_line fuel' lines i tasks w.
Proof.
  revert fuel' i tasks w.
  induction fuel as [|fuel IH]; intros fuel' i tasks w Hf Hf'.
  - rewrite !scan_end; [done| |]; apply lookup_ge_None; lia.
  - destruct (lines !! i) as [l|] eqn:E; [|by rewrite !scan_end].
    pose proof (lookup_lt_Some _ _ _ E) as Hlt.
    destruct fuel' as [|fuel']; [lia|].
    rewrite !(scan_step _ _ _ l) by done.
    destruct (parse_line w (strip l) lines i) as [[task n] w'].
    apply IH; lia.
Qed.

(** Warnings are only ever appended. *)
Lemma scan_warnings fuel lines i tasks w res :
  (forall w line lines i,
      exists new, snd (parse_line w line lines i) = w ++ new) ->
  scan parse_line fuel lines i tasks w = Some res ->
  exists new, snd res = w ++ new.
Proof.
  intros Hpl. revert i tasks w.
  induction fuel as [|fuel IH]; intros i tasks w.
  - simpl. destruct (lines !! i); [done|].
    intros [= <-]. exists []. by rewrite app_nil_r.
  - destruct (lines !! i) as [l|] eqn:E.
    + rewrite (scan_step _ _ _ l) by done.
      destruct (Hpl w (strip l) lines i) as [new Hnew].
      destruct (parse_line w (strip l) lines i) as [[task n] w'].
      simpl in Hnew. subst w'. intros H.
      apply IH in H as [new' ->]. exists (new ++ new').
      by rewrite app_assoc.
    + rewrite scan_end by done. intros [= <-]. exists [].
      by rewrite app_nil_r.
Qed.
End scan_facts.

(** ** The per-line functions *)

Lemma match_lits_head c pre s m rest :
  match_classes (Lit c :: pre) s = Some (m, rest) ->
  exists s', s = String c s'.
Proof.
  destruct s as [|a s]; simpl; [done|].
  destruct (Ascii.eqb_spec a c) as [->|]; [eauto|done].
Qed.

Section beorg_line_facts.
Import BeOrgParser.

Lemma beorg_not_header w line lines i :
  is_header line = false -> _parse_task_from_line w line lines i = (None, 0%nat, w).
Proof. unfold _parse_task_from_line, is_header. by intros ->. Qed.

Lemma beorg_header w line lines i :
  is_header line = true ->
  _parse_task_from_line w line lines i =
  _parse_beorg_timestamp_and_create_task w (str_from 7 line)
    (startswith "* DONE " line) lines i line.
Proof. unfold _parse_task_from_line, is_header. by intros ->. Qed.

Lemma beorg_line_warnings w line lines i :
  exists new, snd (_parse_task_from_line w line lines i) = w ++ new.
Proof.
  unfold _parse_task_from_line, _parse_beorg_timestamp_and_create_task.
  repeat match goal with
         | |- context [match ?x with _ => _ end] => destruct x
         end; simpl; eauto.
  all: exists []; by rewrite app_nil_r.
Qed.

(** A line with the timestamp shape starts with an opening bracket,
    so it is never a header. *)
Lemma timestamp_line_not_header line ts :
  timestamp_match line = Some ts -> is_header line = false.
Proof.
  unfold timestamp_match, re_match_group. intros H.
  destruct (match_classes (lits "[") line) as [[m rest]|] eqn:E; [|done].
  apply match_lits_head in E as [s' ->]. reflexivity.
Qed.


Lemma beorg_wellformed_line w line lines i :
  is_header line = true -> ~ malformed lines i ->
  exists task, _parse_task_from_line w line lines i = (Some task, 1%nat, w).
Proof.
  intros Hh Hm. rewrite beorg_header by done.
  unfold _parse_beorg_timestamp_and_create_task, malformed, timestamp_match in *.
  destruct (lines !! (i + 1)%nat) as [l|]; [|done].
  destruct (re_match_group _ _ _ (strip l)) as [ts|]; [|done].
  destruct (strptime ts); [eauto|done].
Qed.
End beorg_line_facts.

Section journelly_line_facts.
Import JournellyParser.

Lemma journelly_not_header w line lines i :
  header_match line = None ->
  _parse_journelly_task_from_line w line lines i = (None, 0%nat, w).
Proof. unfold _parse_journelly_task_from_line, header_match. by intros ->. Qed.

Lemma journelly_line_warnings w line lines i :
  exists new, snd (_parse_journelly_task_from_line w line lines i) = w ++ new.
Proof.
  unfold _parse_journelly_task_from_line.
  repeat match goal with
         | |- context [match ?x with _ => _ end] => destruct x
         end; simpl; eauto.
  all: exists []; by rewrite app_nil_r.
Qed.


Lemma journelly_wellformed_line w line lines i ts :
  header_match line = Some ts -> ~ malformed ts lines i ->
  exists task,
    _parse_journelly_task_from_line w line lines i = (Some task, 1%nat, w).
Proof.
  intros Hh Hm. unfold _parse_journelly_task_from_line.
  unfold header_match in Hh. rewrite Hh. unfold malformed in Hm.
  destruct (strptime ts) as [d|] eqn:Ets; [|tauto].
  destruct (lines !! (i + 1)%nat) as [l|]; [|tauto].
  unfold is_task_line in Hm.
  destruct (startswith "- [ ] " (strip l) || startswith "- [X] " (strip l));
    [eauto|tauto].
Qed.
End journelly_line_facts.

(** ** Matching a sequence of classes *)

Lemma match_classes_sound pat s m rest :
  match_classes pat s = Some (m, rest) -> s = m +:+ rest.
Proof.
  revert s m rest. induction pat as [|k pat IH]; intros s m rest; simpl.
  - by intros [= <- <-].
  - destruct s as [|c s]; [done|].
    destruct (cclass_matches k c); [|done].
    destruct (match_classes pat s) as [[m' rest']|] eqn:E; [|done].
    intros [= <- <-]. apply IH in E. subst s. reflexivity.
Qed.

(** What follows the matched text does not matter. *)
Lemma match_classes_app pat s m rest extra :
  match_classes pat s = Some (m, rest) ->
  match_classes pat (s +:+ extra) = Some (m, rest +:+ extra).
Proof.
  revert s m rest. induction pat as [|k pat IH]; intros s m rest; simpl.
  - by intros [= <- <-].
  - destruct s as [|c s]; [done|]. simpl.
    destruct (cclass_matches k c); [|done].
    destruct (match_classes pat s) as [[m' rest']|] eqn:E; [|done].
    intros [= <- <-]. by rewrite (IH _ _ _ E).
Qed.

Lemma re_match_group_app pre grp post s g extra :
  re_match_group pre grp post s = Some g ->
  re_match_group pre grp post (s +:+ extra) = Some g.
Proof.
  unfold re_match_group.
  destruct (match_classes pre s) as [[m1 s1]|] eqn:E1; [|done].
  destruct (match_classes grp s1) as [[m2 s2]|] eqn:E2; [|done].
  destruct (match_classes post s2) as [[m3 s3]|] eqn:E3; [|done].
  intros [= <-].
  rewrite (match_classes_app _ _ _ _ extra E1).
  rewrite (match_classes_app _ _ _ _ extra E2).
  by rewrite (match_classes_app _ _ _ _ extra E3).
Qed.

(** ** Claims on malformed entries and on header recognition *)

Section parser_claims.



(** C7, as the code has it.  At a recognized inbox header whose next
    line has the timestamp shape but a timestamp that does not parse,
    the entry is discarded with one warning and no extra line is
    counted as consumed: the scan resumes at the timestamp line
    itself.  That line starts with a bracket, so it is not a header
    and is passed over without task or warning; the outcome is that
    of resuming after the timestamp line. *)
Theorem beorg_invalid_timestamp_resumes_at_timestamp_line
    (w : list string) (lines : list string) (i : nat) (l l' ts : string) :
  lines !! i = Some l ->
  BeOrgParser.is_header (strip l) = true ->
  lines !! (i + 1)%nat = Some l' ->
  BeOrgParser.timestamp_match (strip l') = Some ts ->
  strptime ts = None ->
  let msg :=
    "Skipping entry in BeOrg file due to invalid timestamp: '" +:+ ts +:+ "'" in
  BeOrgParser._parse_task_from_line w (strip l) lines i
    = (None, 0%nat, w ++ [msg])
  /\ BeOrgParser._parse_task_from_line (w ++ [msg]) (strip l') lines (i + 1)%nat
    = (None, 0%nat, w ++ [msg])
  /\ forall fuel tasks,
      scan BeOrgParser._parse_task_from_line (S (S fuel)) lines i tasks w
      = scan BeOrgParser._parse_task_from_line fuel lines (i + 2)%nat tasks
          (w ++ [msg]).
Proof.
  intros Hl Hh Hl' Hts Hbad msg.
  assert (BeOrgParser._parse_task_from_line w (strip l) lines i
          = (None, 0%nat, w ++ [msg])) as H1.
  { rewrite beorg_header by done.
    unfold BeOrgParser._parse_beorg_timestamp_and_create_task.
    rewrite Hl'. unfold BeOrgParser.timestamp_match in Hts.
    by rewrite Hts, Hbad. }
  assert (BeOrgParser._parse_task_from_line (w ++ [msg]) (strip l') lines
            (i + 1)%nat = (None, 0%nat, w ++ [msg])) as H2.
  { apply beorg_not_header. by eapply timestamp_line_not_header. }
  split; [done|]. split; [done|]. intros fuel tasks.
  rewrite (scan_step _ _ _ _ l) by done. rewrite H1.
  rewrite Nat.add_0_r.
  rewrite (scan_step _ _ _ _ l') by done. rewrite H2.
  f_equal. lia.
Qed.

Lemma beorg_invalid_timestamp_resumes_at_timestamp_line_witness :
  BeOrgParser._parse_task_from_line []
    (strip "* TODO Pay rent") ["* TODO Pay rent"; "[2024-02-30 Fri 10:00]"] 0%nat
  = (None, 0%nat,
     [] ++ ["Skipping entry in BeOrg file due to invalid timestamp: '"
            +:+ "2024-02-30 Fri 10:00" +:+ "'"]).
Proof.
  refine (proj1 (beorg_invalid_timestamp_resumes_at_timestamp_line []
    ["* TODO Pay rent"; "[2024-02-30 Fri 10:00]"] 0%nat
    "* TODO Pay rent" "[2024-02-30 Fri 10:00]" "2024-02-30 Fri 10:00"
    _ _ _ _ _)).
  - reflexivity.
  - vm_compute. reflexivity.
  - reflexivity.
  - vm_compute. reflexivity.
  - vm_compute. reflexivity.
Defined.

(** C7 as stated fails: with the header at line 0 and a timestamp
    line of the right shape but an impossible date at line 1, the
    per-line function reports no extra line consumed, so the next
    line scanned is line 1 and not line 2. *)
Lemma beorg_invalid_timestamp_line_not_consumed :
  let lines := ["* TODO Pay rent"; "[2024-02-30 Fri 10:00]"; "* TODO Next"] in
  BeOrgParser.is_header (strip "* TODO Pay rent") = true
  /\ BeOrgParser.timestamp_match (strip "[2024-02-30 Fri 10:00]")
     = Some "2024-02-30 Fri 10:00"
  /\ strptime "2024-02-30 Fri 10:00" = None
  /\ exists w',
      BeOrgParser._parse_task_from_line [] (strip "* TODO Pay rent") lines 0%nat
      = (None, 0%nat, w')
      /\ (0 + 1 + 0)%nat <> 2%nat.
Proof.
  intros lines. repeat split; try (vm_compute; reflexivity).
  eexists. split; [vm_compute; reflexivity|lia].
Qed.

(** C8, as the code has it.  [re.match] anchors the pattern at the
    start of the line only: a journal header is recognized at every
    line that begins with [* [YYYY-MM-DD Dow HH:MM] @ -], whatever
    follows; a line that does not begin with it yields nothing. *)
Theorem journelly_header_prefix_match :
  (forall line ts extra,
      JournellyParser.header_match line = Some ts ->
      JournellyParser.header_match (line +:+ extra) = Some ts)
  /\ (forall w line lines i,
      JournellyParser.header_match line = None ->
      JournellyParser._parse_journelly_task_from_line w line lines i
      = (None, 0%nat, w))
  /\ (forall w line lines i ts d l extra,
      JournellyParser.header_match line = Some ts ->
      strptime ts = Some d ->
      lines !! (i + 1)%nat = Some l ->
      JournellyParser.is_task_line (strip l) = true ->
      JournellyParser._parse_journelly_task_from_line w (line +:+ extra)
        lines i
      = (Some (mk_Task (str_from 6 (strip l)) d
                 (startswith "- [X] " (strip l))), 1%nat, w)).
Proof.
  split; [|split].
  - intros line ts extra. apply re_match_group_app.
  - intros. by apply journelly_not_header.
  - intros w line lines i ts d l extra Hh Hd Hl Ht.
    unfold JournellyParser._parse_journelly_task_from_line.
    unfold JournellyParser.header_match in Hh.
    rewrite (re_match_group_app _ _ _ _ _ extra Hh), Hd, Hl.
    unfold JournellyParser.is_task_line in Ht. by rewrite Ht.
Qed.

Lemma journelly_header_prefix_match_witness :
  JournellyParser.header_match ("* [2024-01-01 Mon 10:00] @ -" +:+ " Home")
  = Some "2024-01-01 Mon 10:00".
Proof.
  refine (proj1 journelly_header_prefix_match
            "* [2024-01-01 Mon 10:00] @ -" "2024-01-01 Mon 10:00" " Home" _).
  vm_compute. reflexivity.
Defined.

(** C8 as stated fails: a header line with text after [@ -] starts a
    task. *)
Lemma journelly_header_with_trailing_text_recognized :
  let line := "* [2024-01-01 Mon 10:00] @ - Home" in
  let lines := [line; "- [ ] Buy milk"] in
  JournellyParser._parse_journelly_task_from_line [] (strip line) lines 0%nat
  = (Some (mk_Task "Buy milk" (mk_datetime 2024 1 1 10 0 0 0) false),
     1%nat, [])
  /\ JournellyParser._parse_tasks []
       (line +:+ String newline "- [ ] Buy milk")
     = Some ([mk_Task "Buy milk" (mk_datetime 2024 1 1 10 0 0 0) false], []).
Proof. split; vm_compute; reflexivity. Qed.
End parser_claims.

(** ** Printing and reading numbers and dates *)

Lemma digit_range (k : Z) :
  0 <= k < 10 ->
  k = 0 \/ k = 1 \/ k = 2 \/ k = 3 \/ k = 4 \/ k = 5 \/ k = 6 \/ k = 7
  \/ k = 8 \/ k = 9.
Proof. lia. Qed.

Ltac each_digit k H :=
  apply digit_range in H;
  repeat (destruct H as [H|H]); subst k; vm_compute; reflexivity.

Lemma digit_char_is_digit k : 0 <= k < 10 -> is_digit (digit_char k) = true.
Proof. intros H. each_digit k H. Qed.

Lemma digit_val_digit_char k : 0 <= k < 10 -> digit_val (digit_char k) = k.
Proof. intros H. each_digit k H. Qed.

Lemma int_of_digits_pad2 n : 0 <= n < 100 -> int_of_digits (pad2 n) = n.
Proof.
  intros H. unfold int_of_digits, pad2. cbn [list_ascii_of_string fold_left].
  rewrite !digit_val_digit_char
    by (try apply Z.mod_pos_bound; try split;
        try apply Z.div_pos; try apply Z.div_lt_upper_bound; lia).
  pose proof (Z.div_mod n 10). lia.
Qed.

Lemma int_of_digits_pad4 n : 0 <= n < 10000 -> int_of_digits (pad4 n) = n.
Proof.
  intros H. unfold int_of_digits, pad4, pad2.
  cbn [list_ascii_of_string fold_left].
  assert (0 <= n / 1000 < 10) by
    (split; [apply Z.div_pos|apply Z.div_lt_upper_bound]; lia).
  assert (0 <= n / 100 mod 10 < 10) by (apply Z.mod_pos_bound; lia).
  assert (0 <= n mod 100 / 10 < 10) by
    (pose proof (Z.mod_pos_bound n 100);
     split; [apply Z.div_pos|apply Z.div_lt_upper_bound]; lia).
  assert (0 <= n mod 100 mod 10 < 10) by (apply Z.mod_pos_bound; lia).
  rewrite !digit_val_digit_char by done.
  pose proof (Z.div_mod n 100). pose proof (Z.div_mod (n / 100) 10).
  pose proof (Z.div_mod (n mod 100) 10).
  assert (n / 1000 = n / 100 / 10) by (rewrite Z.div_div; [done|lia|lia]).
  lia.
Qed.

Lemma match_timestamp_pattern y1 y2 y3 y4 m1 m2 d1 d2 a1 a2 a3 H1 H2 M1 M2 rest :
  is_digit y1 = true -> is_digit y2 = true -> is_digit y3 = true ->
  is_digit y4 = true -> is_digit m1 = true -> is_digit m2 = true ->
  is_digit d1 = true -> is_digit d2 = true ->
  is_word a1 = true -> is_word a2 = true -> is_word a3 = true ->
  is_digit H1 = true -> is_digit H2 = true ->
  is_digit M1 = true -> is_digit M2 = true ->
  match_classes timestamp_pattern
    (ts_string y1 y2 y3 y4 m1 m2 d1 d2 a1 a2 a3 H1 H2 M1 M2 +:+ rest)
  = Some (ts_string y1 y2 y3 y4 m1 m2 d1 d2 a1 a2 a3 H1 H2 M1 M2, rest).
Proof.
  intros. unfold ts_string, timestamp_pattern.
  cbn -[is_digit is_word].
  repeat match goal with H : _ = true |- _ => rewrite H; clear H end.
  reflexivity.
Qed.

Lemma days_in_month_le_31 y m : _days_in_month y m <= 31.
Proof.
  unfold _days_in_month.
  destruct ((m =? 2) && _is_leap y); [lia|].
  destruct (Z.to_nat (m - 1)) as [|[|[|[|[|[|[|[|[|[|[|[|[|n]]]]]]]]]]]]];
    simpl; lia.
Qed.

Lemma weekday_range d : 0 <= weekday d < 7.
Proof. unfold weekday. apply Z.mod_pos_bound. lia. Qed.

(** The text [strftime] prints, character by character. *)
Lemma year_text_pad4 y : 1000 <= y -> year_text y = pad4 y.
Proof.
  intros H. unfold year_text.
  by rewrite !(proj2 (Z.ltb_ge _ _)) by lia.
Qed.

Lemma strftime_ts_string d :
  1000 <= year d ->
  exists a1 a2 a3,
    nth (Z.to_nat (weekday d)) day_abbr "" = String a1 (String a2 (String a3 ""))
    /\ is_word a1 = true /\ is_word a2 = true /\ is_word a3 = true
    /\ is_day_abbr (String a1 (String a2 (String a3 ""))) = true
    /\ strftime d =
       ts_string
         (digit_char (year d / 1000)) (digit_char (year d / 100 mod 10))
         (digit_char (year d mod 100 / 10)) (digit_char (year d mod 100 mod 10))
         (digit_char (month d / 10)) (digit_char (month d mod 10))
         (digit_char (day d / 10)) (digit_char (day d mod 10))
         a1 a2 a3
         (digit_char (hour d / 10)) (digit_char (hour d mod 10))
         (digit_char (minute d / 10)) (digit_char (minute d mod 10)).
Proof.
  intros Hy. unfold strftime. rewrite year_text_pad4 by done.
  pose proof (weekday_range d) as Hw.
  assert (exists k, Z.to_nat (weekday d) = k /\ (k < 7)%nat) as (k & -> & Hk)
    by (eexists; split; [done|lia]).
  do 7 (destruct k as [|k];
        [do 3 eexists; repeat split; try reflexivity|]).
  lia.
Qed.

Lemma valid_datetime_bounds d :
  valid_datetime d = true ->
  1 <= year d <= 9999 /\ 1 <= month d <= 12
  /\ 1 <= day d <= _days_in_month (year d) (month d)
  /\ 0 <= hour d <= 23 /\ 0 <= minute d <= 59
  /\ 0 <= second d <= 59 /\ 0 <= microsecond d <= 999999.
Proof.
  unfold valid_datetime. rewrite !andb_true_iff, !Z.leb_le. tauto.
Qed.

Lemma digits_of_field n :
  0 <= n < 100 ->
  is_digit (digit_char (n / 10)) = true
  /\ is_digit (digit_char (n mod 10)) = true.
Proof.
  intros H. split; apply digit_char_is_digit.
  - split; [apply Z.div_pos|apply Z.div_lt_upper_bound]; lia.
  - apply Z.mod_pos_bound. lia.
Qed.

(** Reading back a printed timestamp gives the timestamp. *)
Lemma strptime_strftime d :
  minute_precision d = true -> 1000 <= year d ->
  strptime (strftime d) = Some d.
Proof.
  unfold minute_precision. rewrite !andb_true_iff, !Z.eqb_eq.
  intros [[Hv Hs] Hus] Hyear.
  apply valid_datetime_bounds in Hv
    as (Hy & Hm & Hd & HH & HM & _ & _).
  pose proof (days_in_month_le_31 (year d) (month d)) as H31.
  destruct (strftime_ts_string d Hyear)
    as (a1 & a2 & a3 & _ & Ha1 & Ha2 & Ha3 & Habbr & Heq).
  unfold strptime. rewrite Heq.
  destruct (digits_of_field (year d / 100)) as [Hy1 Hy2];
    [split; [apply Z.div_pos|apply Z.div_lt_upper_bound]; lia|].
  rewrite Z.div_div in Hy1 by lia. change (100 * 10) with 1000 in Hy1.
  destruct (digits_of_field (year d mod 100)) as [Hy3 Hy4];
    [apply Z.mod_pos_bound; lia|].
  destruct (digits_of_field (month d)) as [Hm1 Hm2]; [lia|].
  destruct (digits_of_field (day d)) as [Hd1 Hd2]; [lia|].
  destruct (digits_of_field (hour d)) as [HH1 HH2]; [lia|].
  destruct (digits_of_field (minute d)) as [HM1 HM2]; [lia|].
  rewrite <- (append_nil_r (ts_string _ _ _ _ _ _ _ _ _ _ _ _ _ _ _)) at 1.
  rewrite match_timestamp_pattern by done.
  unfold ts_string. cbn [field String.substring].
  change (int_of_digits (String (digit_char (year d / 1000)) _))
    with (int_of_digits (pad4 (year d))).
  repeat match goal with
         | |- context [int_of_digits (String (digit_char (?n / 10))
                         (String (digit_char (?n mod 10)) ""))] =>
             change (int_of_digits (String (digit_char (n / 10))
                         (String (digit_char (n mod 10)) "")))
               with (int_of_digits (pad2 n))
         end.
  rewrite int_of_digits_pad4 by lia.
  rewrite !int_of_digits_pad2 by lia.
  rewrite Habbr.
  repeat match goal with
         | |- context [?a <=? ?b] =>
             rewrite (proj2 (Z.leb_le a b)) by lia
         end.
  cbn [andb]. destruct d; cbn in *; subst; reflexivity.
Qed.

(** ** Stripping, splitting and joining *)

Ltac ascii_cases c := destruct c as [[|] [|] [|] [|] [|] [|] [|] [|]].

Lemma is_digit_plain c :
  is_digit c = true -> is_space c = false /\ Ascii.eqb c newline = false.
Proof. ascii_cases c; vm_compute; intros; done. Qed.

Lemma is_word_plain c :
  is_word c = true -> is_space c = false /\ Ascii.eqb c newline = false.
Proof. ascii_cases c; vm_compute; intros; done. Qed.

Lemma ends_nonspace_app a b :
  ends_nonspace b = true -> ends_nonspace (a +:+ b) = true.
Proof.
  intros Hb. induction a as [|c a IH]; [done|].
  simpl. destruct (a +:+ b) eqn:E; [|done].
  by destruct a, b.
Qed.

Lemma rstrip_cons c s :
  rstrip (String c s) =
  match rstrip s with
  | EmptyString => if is_space c then EmptyString else String c EmptyString
  | r => String c r
  end.
Proof. reflexivity. Qed.

Lemma rstrip_ends_nonspace s : ends_nonspace s = true -> rstrip s = s.
Proof.
  induction s as [|c s IH]; [done|].
  destruct s as [|c' s].
  - simpl. by destruct (is_space c).
  - intros H. change (ends_nonspace (String c' s) = true) in H.
    rewrite rstrip_cons, (IH H). done.
Qed.

Lemma rstrip_snoc_space s c :
  is_space c = true -> rstrip (s +:+ String c "") = rstrip s.
Proof.
  intros Hc. induction s as [|a s IH].
  - simpl. by rewrite Hc.
  - change (String a s +:+ String c "") with (String a (s +:+ String c "")).
    by rewrite !rstrip_cons, IH.
Qed.

Lemma strip_fixed c s :
  is_space c = false -> ends_nonspace (String c s) = true ->
  strip (String c s) = String c s.
Proof.
  intros Hc He. unfold strip. cbn [lstrip]. rewrite Hc.
  by apply rstrip_ends_nonspace.
Qed.

Lemma strip_id s : lstrip s = s -> ends_nonspace s = true -> strip s = s.
Proof.
  intros Hl He. unfold strip. rewrite Hl. by apply rstrip_ends_nonspace.
Qed.

Lemma no_newline_app a b :
  no_newline (a +:+ b) = no_newline a && no_newline b.
Proof.
  induction a as [|c a IH]; simpl; [done|]. rewrite IH.
  by rewrite andb_assoc.
Qed.

Lemma split_nl_no_newline s : no_newline s = true -> split_nl s = [s].
Proof.
  induction s as [|c s IH]; [done|]. simpl.
  intros [Hc Hs]%andb_true_iff. apply negb_true_iff in Hc.
  rewrite Hc, IH; done.
Qed.

Lemma split_nl_line l r :
  no_newline l = true -> split_nl (l +:+ String newline r) = l :: split_nl r.
Proof.
  induction l as [|c l IH]; [done|]. simpl.
  intros [Hc Hs]%andb_true_iff. apply negb_true_iff in Hc.
  rewrite Hc, IH; done.
Qed.

Lemma split_join lines :
  lines <> [] -> Forall (fun l => no_newline l = true) lines ->
  split_nl (join_nl lines) = lines.
Proof.
  induction lines as [|l lines IH]; [done|]. intros _ Hall.
  apply Forall_cons in Hall as [Hl Hall].
  destruct lines as [|l' lines]; [by apply split_nl_no_newline|].
  change (join_nl (l :: l' :: lines))
    with (l +:+ String newline (join_nl (l' :: lines))).
  rewrite split_nl_line by done. f_equal. by apply IH.
Qed.

Lemma ends_nonspace_join lines :
  lines <> [] -> Forall (fun l => ends_nonspace l = true) lines ->
  ends_nonspace (join_nl lines) = true.
Proof.
  induction lines as [|l lines IH]; [done|]. intros _ Hall.
  apply Forall_cons in Hall as [Hl Hall].
  destruct lines as [|l' lines]; [done|].
  change (join_nl (l :: l' :: lines))
    with (l +:+ String newline (join_nl (l' :: lines))).
  apply ends_nonspace_app.
  change (ends_nonspace (String newline (join_nl (l' :: lines))))
    with (ends_nonspace (String newline "" +:+ join_nl (l' :: lines))).
  apply ends_nonspace_app. by apply IH.
Qed.

(** The lines of a written file, read back. *)
Lemma split_strip_file_text c s lines :
  is_space c = false ->
  Forall (fun l => ends_nonspace l = true) (String c s :: lines) ->
  Forall (fun l => no_newline l = true) (String c s :: lines) ->
  split_nl (strip (file_text (String c s :: lines))) = String c s :: lines.
Proof.
  intros Hc He Hn.
  assert (strip (file_text (String c s :: lines))
          = join_nl (String c s :: lines)) as ->.
  { unfold file_text, strip.
    assert (exists r, join_nl (String c s :: lines) = String c r) as [r Hr].
    { destruct lines; simpl; eauto. }
    rewrite Hr at 1. cbn [String.append lstrip]. rewrite Hc.
    change (String c (r +:+ String newline ""))
      with (String c r +:+ String newline "").
    rewrite <- Hr. rewrite rstrip_snoc_space by reflexivity.
    apply rstrip_ends_nonspace. by apply ends_nonspace_join. }
  by apply split_join.
Qed.

(** Sorting keeps the tasks. *)
Lemma insert_desc_perm t l : insert_desc t l ≡ₚ t :: l.
Proof.
  induction l as [|u l IH]; simpl; [done|].
  destruct (datetime_ltb (timestamp t) (timestamp u)); [|done].
  rewrite IH. apply perm_swap.
Qed.

Lemma sorted_desc_perm l : sorted_desc l ≡ₚ l.
Proof.
  induction l as [|t l IH]; simpl; [done|].
  by rewrite insert_desc_perm, IH.
Qed.

(** ** Reading back what the formatters write *)

Lemma pad2_no_newline n : 0 <= n < 100 -> no_newline (pad2 n) = true.
Proof.
  intros H. destruct (digits_of_field n H) as [H1 H2].
  apply is_digit_plain in H1 as [_ H1]. apply is_digit_plain in H2 as [_ H2].
  unfold pad2. cbn [no_newline]. by rewrite H1, H2.
Qed.

Lemma digit_char_no_newline k :
  0 <= k < 10 -> Ascii.eqb (digit_char k) newline = false.
Proof.
  intros H. by apply digit_char_is_digit, is_digit_plain in H as [_ H].
Qed.

Lemma year_text_no_newline y :
  1 <= y <= 9999 -> no_newline (year_text y) = true.
Proof.
  intros H. unfold year_text.
  destruct (Z.ltb_spec y 10); [|destruct (Z.ltb_spec y 100);
    [|destruct (Z.ltb_spec y 1000)]].
  - cbn [no_newline]. by rewrite digit_char_no_newline by lia.
  - apply pad2_no_newline. lia.
  - cbn [no_newline]. rewrite digit_char_no_newline
      by (split; [apply Z.div_pos|apply Z.div_lt_upper_bound]; lia).
    apply pad2_no_newline, Z.mod_pos_bound. lia.
  - unfold pad4. cbn [no_newline].
    rewrite !digit_char_no_newline.
    + apply pad2_no_newline, Z.mod_pos_bound. lia.
    + apply Z.mod_pos_bound. lia.
    + split; [apply Z.div_pos|apply Z.div_lt_upper_bound]; lia.
Qed.

Lemma day_abbr_no_newline d :
  no_newline (nth (Z.to_nat (weekday d)) day_abbr "") = true.
Proof.
  pose proof (weekday_range d) as Hw.
  assert (exists k, Z.to_nat (weekday d) = k /\ (k < 7)%nat) as (k & -> & Hk)
    by (eexists; split; [done|lia]).
  do 7 (destruct k as [|k]; [reflexivity|]). lia.
Qed.

(** A printed timestamp has no line feed, whatever the year. *)
Lemma strftime_no_newline d :
  valid_datetime d = true -> no_newline (strftime d) = true.
Proof.
  intros Hv.
  apply valid_datetime_bounds in Hv as (Hy & Hm & Hd & HH & HM & _ & _).
  pose proof (days_in_month_le_31 (year d) (month d)) as H31.
  unfold strftime. rewrite !no_newline_app.
  rewrite year_text_no_newline, !pad2_no_newline, day_abbr_no_newline by lia.
  reflexivity.
Qed.

(** From the year 1000 on it is matched by the timestamp pattern. *)
Lemma strftime_plain d :
  valid_datetime d = true -> 1000 <= year d ->
  forall rest,
    match_classes timestamp_pattern (strftime d +:+ rest)
    = Some (strftime d, rest).
Proof.
  intros Hv Hy4.
  apply valid_datetime_bounds in Hv as (Hy & Hm & Hd & HH & HM & _ & _).
  pose proof (days_in_month_le_31 (year d) (month d)) as H31.
  destruct (strftime_ts_string d Hy4)
    as (a1 & a2 & a3 & _ & Ha1 & Ha2 & Ha3 & _ & ->).
  destruct (digits_of_field (year d / 100)) as [Hy1 Hy2];
    [split; [apply Z.div_pos|apply Z.div_lt_upper_bound]; lia|].
  rewrite Z.div_div in Hy1 by lia. change (100 * 10) with 1000 in Hy1.
  destruct (digits_of_field (year d mod 100)) as [Hy3 Hy5];
    [apply Z.mod_pos_bound; lia|].
  destruct (digits_of_field (month d)) as [Hm1 Hm2]; [lia|].
  destruct (digits_of_field (day d)) as [Hd1 Hd2]; [lia|].
  destruct (digits_of_field (hour d)) as [HH1 HH2]; [lia|].
  destruct (digits_of_field (minute d)) as [HM1 HM2]; [lia|].
  intros rest; by apply match_timestamp_pattern.
Qed.

Lemma storable_inv t :
  storable t = true ->
  no_newline (content t) = true /\ ends_nonspace (content t) = true
  /\ valid_datetime (timestamp t) = true
  /\ minute_precision (timestamp t) = true.
Proof.
  unfold storable. rewrite !andb_true_iff. intros [[Hn He] Hm].
  repeat split; try done.
  unfold minute_precision in Hm. rewrite !andb_true_iff in Hm. tauto.
Qed.

Lemma legible_inv t :
  legible t = true -> storable t = true /\ 1000 <= year (timestamp t).
Proof. unfold legible. rewrite andb_true_iff, Z.leb_le. tauto. Qed.

Lemma legible_intro t :
  storable t = true -> 1000 <= year (timestamp t) -> legible t = true.
Proof. unfold legible. rewrite andb_true_iff, Z.leb_le. tauto. Qed.

Lemma legible_storable T :
  Forall (fun t => legible t = true) T -> Forall (fun t => storable t = true) T.
Proof.
  intros H. eapply Forall_impl; [exact H|].
  intros t Ht. by apply legible_inv in Ht as [? _].
Qed.

Lemma storable_legible T :
  Forall (fun t => storable t = true) T ->
  Forall (fun t => 1000 <= year (timestamp t)) T ->
  Forall (fun t => legible t = true) T.
Proof.
  intros H. induction H as [|t T Ht HT IH]; [constructor|].
  intros [Hy HY]%Forall_cons. constructor; [by apply legible_intro|by apply IH].
Qed.

Lemma ends_nonspace_snoc s c :
  is_space c = false -> ends_nonspace (s +:+ String c "") = true.
Proof. intros Hc. apply ends_nonspace_app. simpl. by rewrite Hc. Qed.

Section beorg_roundtrip.
Import BeOrgParser.

Lemma beorg_format_lines t :
  storable t = true ->
  exists s1 s2,
    format_task t = [String "*" s1; String "[" s2]
    /\ Forall (fun l => ends_nonspace l = true) (format_task t)
    /\ Forall (fun l => no_newline l = true) (format_task t).
Proof.
  intros (Hn & He & Hv & _)%storable_inv.
  pose proof (strftime_no_newline _ Hv) as Hts.
  unfold format_task. do 2 eexists. split; [reflexivity|].
  split; repeat (apply Forall_cons; split); try (by apply Forall_nil).
  - by do 3 apply ends_nonspace_app.
  - apply (ends_nonspace_snoc ("[" +:+ strftime (timestamp t)) "]").
    reflexivity.
  - rewrite !no_newline_app, Hn. by destruct (is_completed t).
  - rewrite !no_newline_app, Hts. reflexivity.
Qed.

(** The header and timestamp lines of a task are read back as the
    task. *)
Lemma beorg_parse_formatted w lines i t h c :
  legible t = true ->
  format_task t = [h; c] ->
  lines !! (i + 1)%nat = Some c ->
  _parse_task_from_line w (strip h) lines i = (Some t, 1%nat, w).
Proof.
  intros [Hst Hy4]%legible_inv Hfmt Hc.
  destruct (beorg_format_lines t Hst) as (s1 & s2 & Heq & He & _).
  rewrite Hfmt in He.
  apply Forall_cons in He as [He1 He]. apply Forall_cons in He as [He2 _].
  apply storable_inv in Hst as (_ & _ & Hv & Hmp).
  assert (h = "* " +:+ (if is_completed t then "DONE" else "TODO")
              +:+ " " +:+ content t
          /\ c = "[" +:+ strftime (timestamp t) +:+ "]") as [Hh Hc']
    by (unfold format_task in Hfmt; by injection Hfmt).
  rewrite (strip_id h); [|by rewrite Hh|exact He1].
  unfold _parse_task_from_line, _parse_beorg_timestamp_and_create_task.
  rewrite Hc. rewrite (strip_id c); [|by rewrite Hc'|exact He2].
  assert (re_match_group (lits "[") timestamp_pattern (lits "]") c
          = Some (strftime (timestamp t))) as ->.
  { rewrite Hc'. unfold re_match_group.
    change (match_classes (lits "[") ("[" +:+ strftime (timestamp t) +:+ "]"))
      with (Some ("[", strftime (timestamp t) +:+ "]")).
    cbv beta iota.
    rewrite (strftime_plain _ Hv Hy4). reflexivity. }
  rewrite strptime_strftime by done.
  rewrite Hh. destruct t as [[|c0 ct] ts [|]]; reflexivity.
Qed.
End beorg_roundtrip.

Section journelly_roundtrip.
Import JournellyParser.

Lemma journelly_format_lines t :
  storable t = true ->
  exists s1 s2,
    format_task t = [String "*" s1; String "-" s2]
    /\ Forall (fun l => ends_nonspace l = true) (format_task t)
    /\ Forall (fun l => no_newline l = true) (format_task t).
Proof.
  intros (Hn & He & Hv & _)%storable_inv.
  pose proof (strftime_no_newline _ Hv) as Hts.
  unfold format_task. do 2 eexists. split; [reflexivity|].
  split; repeat (apply Forall_cons; split); try (by apply Forall_nil).
  - apply (ends_nonspace_app ("* [" +:+ strftime (timestamp t)) "] @ -").
    reflexivity.
  - by do 3 apply ends_nonspace_app.
  - rewrite !no_newline_app, Hts. reflexivity.
  - rewrite !no_newline_app, Hn. by destruct (is_completed t).
Qed.

Lemma journelly_parse_formatted w lines i t h c :
  legible t = true ->
  format_task t = [h; c] ->
  lines !! (i + 1)%nat = Some c ->
  _parse_journelly_task_from_line w (strip h) lines i = (Some t, 1%nat, w).
Proof.
  intros [Hst Hy4]%legible_inv Hfmt Hc.
  destruct (journelly_format_lines t Hst) as (s1 & s2 & Heq & He & _).
  rewrite Hfmt in He.
  apply Forall_cons in He as [He1 He]. apply Forall_cons in He as [He2 _].
  apply storable_inv in Hst as (_ & _ & Hv & Hmp).
  assert (h = "* [" +:+ strftime (timestamp t) +:+ "] @ -"
          /\ c = "- " +:+ (if is_completed t then "[X]" else "[ ]")
                  +:+ " " +:+ content t) as [Hh Hc']
    by (unfold format_task in Hfmt; by injection Hfmt).
  rewrite (strip_id h); [|by rewrite Hh|exact He1].
  unfold _parse_journelly_task_from_line.
  assert (re_match_group (lits "* [") timestamp_pattern (lits "] @ -") h
          = Some (strftime (timestamp t))) as ->.
  { rewrite Hh. unfold re_match_group.
    change (match_classes (lits "* [")
              ("* [" +:+ strftime (timestamp t) +:+ "] @ -"))
      with (Some ("* [", strftime (timestamp t) +:+ "] @ -")).
    cbv beta iota.
    rewrite (strftime_plain _ Hv Hy4). reflexivity. }
  rewrite strptime_strftime by done.
  rewrite Hc. rewrite (strip_id c); [|by rewrite Hc'|exact He2].
  rewrite Hc'. destruct t as [[|c0 ct] ts [|]]; reflexivity.
Qed.
End journelly_roundtrip.

Section scan_formatted.
Variable parse_line : line_parser.
Variable format_task : Task -> list string.

Hypothesis format_two : forall t, exists h c, format_task t = [h; c].
Hypothesis parse_formatted : forall w lines i t h c,
    legible t = true -> format_task t = [h; c] ->
    lines !! (i + 1)%nat = Some c ->
    parse_line w (strip h) lines i = (Some t, 1%nat, w).

Lemma length_formatted T :
  length (flat_map format_task T) = (2 * length T)%nat.
Proof.
  induction T as [|t T IH]; [done|]. cbn [flat_map].
  destruct (format_two t) as (h & c & ->). simpl. rewrite IH. lia.
Qed.

(** Scanning the lines written for [T] collects [T], in order, with
    no warning. *)
Lemma scan_formatted T :
  Forall (fun t => legible t = true) T ->
  forall pre fuel tasks w,
    (2 * length T <= fuel)%nat ->
    scan parse_line fuel (pre ++ flat_map format_task T) (length pre) tasks w
    = Some (tasks ++ T, w).
Proof.
  induction 1 as [|t T Ht HT IH]; intros pre fuel tasks w Hfuel.
  - cbn [flat_map]. rewrite app_nil_r, scan_end; [by rewrite app_nil_r|].
    by apply lookup_ge_None.
  - cbn [flat_map]. destruct (format_two t) as (h & c & Hfmt).
    rewrite Hfmt. cbn [length] in Hfuel.
    destruct fuel as [|fuel]; [lia|].
    assert ((pre ++ [h; c] ++ flat_map format_task T) !! length pre = Some h)
      as Hh by (by rewrite lookup_app_r, Nat.sub_diag by lia).
    assert ((pre ++ [h; c] ++ flat_map format_task T) !! (length pre + 1)%nat
            = Some c) as Hc.
    { rewrite lookup_app_r by lia.
      replace (length pre + 1 - length pre)%nat with 1%nat by lia. done. }
    rewrite (scan_step _ _ _ _ h) by done.
    rewrite (parse_formatted _ _ _ t h c) by done.
    replace (length pre + 1 + 1)%nat with (length (pre ++ [h; c]))
      by (rewrite length_app; simpl; lia).
    replace (pre ++ [h; c] ++ flat_map format_task T)
      with ((pre ++ [h; c]) ++ flat_map format_task T)
      by (by rewrite <- app_assoc).
    rewrite IH by lia. by rewrite <- app_assoc.
Qed.
End scan_formatted.

Lemma legible_perm T T' :
  T ≡ₚ T' -> Forall (fun t => legible t = true) T' ->
  Forall (fun t => legible t = true) T.
Proof. intros ->. done. Qed.

Lemma storable_perm T T' :
  T ≡ₚ T' -> Forall (fun t => storable t = true) T' ->
  Forall (fun t => storable t = true) T.
Proof. intros ->. done. Qed.

Lemma Forall_flat_map_intro {X Y} (P : Y -> Prop) (f : X -> list Y) l :
  Forall (fun x => Forall P (f x)) l -> Forall P (flat_map f l).
Proof.
  induction 1 as [|x l Hx Hl IH]; cbn [flat_map]; [constructor|].
  apply Forall_app. by split.
Qed.

Section roundtrip_claims.

Lemma beorg_roundtrip T w :
  Forall (fun t => legible t = true) T ->
  BeOrgParser._parse_tasks w (file_text (BeOrgParser._format_tasks T))
  = Some (T, w).
Proof.
  intros HL. pose proof (legible_storable _ HL) as HT.
  destruct T as [|t T]; [reflexivity|].
  unfold BeOrgParser._parse_tasks, BeOrgParser._format_tasks.
  assert (split_nl (strip (file_text (flat_map BeOrgParser.format_task (t :: T))))
          = flat_map BeOrgParser.format_task (t :: T)) as ->.
  { assert (Forall (fun l => ends_nonspace l = true)
              (flat_map BeOrgParser.format_task (t :: T))) as He.
    { apply Forall_flat_map_intro. eapply Forall_impl; [exact HT|].
      intros t' Ht'.
      by destruct (beorg_format_lines t' Ht') as (? & ? & ? & ? & ?). }
    assert (Forall (fun l => no_newline l = true)
              (flat_map BeOrgParser.format_task (t :: T))) as Hn.
    { apply Forall_flat_map_intro. eapply Forall_impl; [exact HT|].
      intros t' Ht'.
      by destruct (beorg_format_lines t' Ht') as (? & ? & ? & ? & ?). }
    apply Forall_cons in HT as [Ht _].
    destruct (beorg_format_lines t Ht) as (s1 & s2 & Heq & _).
    cbn [flat_map] in *. rewrite Heq in *. cbn [app] in *.
    by apply split_strip_file_text. }
  rewrite (length_formatted BeOrgParser.format_task)
    by (intros; unfold BeOrgParser.format_task; eauto).
  refine (scan_formatted BeOrgParser._parse_task_from_line
            BeOrgParser.format_task _ _ (t :: T) HL [] _ [] w _);
    [intros; unfold BeOrgParser.format_task; eauto
    |intros; by eapply beorg_parse_formatted|lia].
Qed.

Lemma journelly_roundtrip T w :
  Forall (fun t => legible t = true) T ->
  JournellyParser._parse_tasks w
    (file_text (JournellyParser._format_tasks T))
  = Some (T, w).
Proof.
  intros HL. pose proof (legible_storable _ HL) as HT.
  destruct T as [|t T]; [reflexivity|].
  unfold JournellyParser._parse_tasks, JournellyParser._format_tasks.
  assert (split_nl (strip (file_text
            (flat_map JournellyParser.format_task (t :: T))))
          = flat_map JournellyParser.format_task (t :: T)) as ->.
  { assert (Forall (fun l => ends_nonspace l = true)
              (flat_map JournellyParser.format_task (t :: T))) as He.
    { apply Forall_flat_map_intro. eapply Forall_impl; [exact HT|].
      intros t' Ht'.
      by destruct (journelly_format_lines t' Ht') as (? & ? & ? & ? & ?). }
    assert (Forall (fun l => no_newline l = true)
              (flat_map JournellyParser.format_task (t :: T))) as Hn.
    { apply Forall_flat_map_intro. eapply Forall_impl; [exact HT|].
      intros t' Ht'.
      by destruct (journelly_format_lines t' Ht') as (? & ? & ? & ? & ?). }
    apply Forall_cons in HT as [Ht _].
    destruct (journelly_format_lines t Ht) as (s1 & s2 & Heq & _).
    cbn [flat_map] in *. rewrite Heq in *. cbn [app] in *.
    by apply split_strip_file_text. }
  rewrite (length_formatted JournellyParser.format_task)
    by (intros; unfold JournellyParser.format_task; eauto).
  refine (scan_formatted JournellyParser._parse_journelly_task_from_line
            JournellyParser.format_task _ _ (t :: T) HL [] _ [] w _);
    [intros; unfold JournellyParser.format_task; eauto
    |intros; by eapply journelly_parse_formatted|lia].
Qed.
End roundtrip_claims.

Section roundtrip_theorem.

(** C3, as the code has it.  For every task collection [T] (with
    distinct contents or not) whose contents have no line feed and
    do not end with whitespace, and whose timestamps are valid dates
    with minute precision from the year 1000 on, writing the formatted
    lines as text and parsing that text gives back [T] itself, in order
    and with no warning, in the inbox format and in the journal format.
    The text [write_file] writes, which sorts first, parses to the
    sorted collection, which has the same tasks as [T]. *)
Theorem format_parse_roundtrip (T : list Task) (w : list string) :
  Forall (fun t => legible t = true) T ->
  BeOrgParser._parse_tasks w (file_text (BeOrgParser._format_tasks T))
    = Some (T, w)
  /\ JournellyParser._parse_tasks w
       (file_text (JournellyParser._format_tasks T))
    = Some (T, w)
  /\ BeOrgParser._parse_tasks w (write_file BeOrgParser._format_tasks T)
    = Some (sorted_desc T, w)
  /\ JournellyParser._parse_tasks w
       (write_file JournellyParser._format_tasks T)
    = Some (sorted_desc T, w)
  /\ sorted_desc T ≡ₚ T.
Proof.
  intros HT.
  assert (Forall (fun t => legible t = true) (sorted_desc T)) as HS
    by (eapply legible_perm; [apply sorted_desc_perm|done]).
  unfold write_file.
  repeat split;
    auto using beorg_roundtrip, journelly_roundtrip, sorted_desc_perm.
Qed.

Lemma format_parse_roundtrip_witness :
  let T := [mk_Task "Simple incomplete" (mk_datetime 2024 1 1 10 0 0 0) false;
            mk_Task "Simple completed" (mk_datetime 2024 1 2 11 0 0 0) true] in
  BeOrgParser._parse_tasks [] (file_text (BeOrgParser._format_tasks T))
  = Some (T, []).
Proof.
  intros T. refine (proj1 (format_parse_roundtrip T [] _)).
  repeat constructor.
Defined.

(** C3 as stated fails, in both formats: a content that ends with a
    space comes back without it, an empty content and a content with
    a line feed do not come back at all, seconds are lost, and a task
    of the year 999, printed with three digits, is not read back. *)
Lemma roundtrip_fails_on_unstorable_tasks :
  let ts := mk_datetime 2024 1 1 10 0 0 0 in
  let parsed_b T :=
    BeOrgParser._parse_tasks [] (file_text (BeOrgParser._format_tasks T)) in
  let parsed_j T :=
    JournellyParser._parse_tasks []
      (file_text (JournellyParser._format_tasks T)) in
  let differs (T : list Task) (res : option (list Task * list string)) :=
    NoDup (content <$> T)
    /\ exists tasks warnings,
        res = Some (tasks, warnings) /\ ~ tasks ≡ₚ T in
  differs [mk_Task "Buy milk " ts false]
    (parsed_b [mk_Task "Buy milk " ts false])
  /\ differs [mk_Task "Buy milk " ts false]
    (parsed_j [mk_Task "Buy milk " ts false])
  /\ differs [mk_Task "" ts false] (parsed_b [mk_Task "" ts false])
  /\ differs [mk_Task "" ts false] (parsed_j [mk_Task "" ts false])
  /\ differs [mk_Task ("Buy" +:+ String newline "milk") ts false]
    (parsed_b [mk_Task ("Buy" +:+ String newline "milk") ts false])
  /\ differs [mk_Task ("Buy" +:+ String newline "milk") ts false]
    (parsed_j [mk_Task ("Buy" +:+ String newline "milk") ts false])
  /\ differs [mk_Task "Buy milk" (mk_datetime 2024 1 1 10 0 30 0) false]
    (parsed_b [mk_Task "Buy milk" (mk_datetime 2024 1 1 10 0 30 0) false])
  /\ differs [mk_Task "Buy milk" (mk_datetime 999 1 1 10 0 0 0) false]
    (parsed_b [mk_Task "Buy milk" (mk_datetime 999 1 1 10 0 0 0) false])
  /\ differs [mk_Task "Buy milk" (mk_datetime 999 1 1 10 0 0 0) false]
    (parsed_j [mk_Task "Buy milk" (mk_datetime 999 1 1 10 0 0 0) false]).
Proof.
  intros ts parsed_b parsed_j differs. subst differs parsed_b parsed_j ts.
  cbv beta.
  repeat split;
    try (apply NoDup_singleton);
    (do 2 eexists; split; [vm_compute; reflexivity|]);
    intros Hp;
    first [ apply Permutation_nil_l in Hp; discriminate
          | apply Permutation_singleton_l in Hp; discriminate ].
Qed.
End roundtrip_theorem.

(** ** The weekday token *)







(** ** Lines read alike give the same tasks *)

Section scan_alike.
Variable parse_line : line_parser.
Variable alike : string -> string -> Prop.

Hypothesis step_alike : forall lines1 lines2 i l1 l2 w1 w2,
    Forall2 alike lines1 lines2 ->
    lines1 !! i = Some l1 -> lines2 !! i = Some l2 ->
    fst (parse_line w1 (strip l1) lines1 i)
    = fst (parse_line w2 (strip l2) lines2 i).

End scan_alike.



(** ** A token inside a text *)


Lemma split_nl_cons c s :
  split_nl (String c s) =
  if Ascii.eqb c newline then EmptyString :: split_nl s
  else match split_nl s with
       | l :: ls => String c l :: ls
       | [] => [String c EmptyString]
       end.
Proof. reflexivity. Qed.









Section weekday_claims.






End weekday_claims.

(** * Further properties of the code *)

(** ** The synchronizer *)





Lemma emitted_nonempty b j c :
  emitted b j c <> [] <->
  (is_Some (b !! c) \/ is_Some (j !! c))
  /\ (forall t, b !! c = Some t -> is_completed t = false)
  /\ (forall t, j !! c = Some t -> is_completed t = false).
Proof.
  unfold emitted, TaskSynchronizer.sync_step.
  destruct (b !! c) as [bt|], (j !! c) as [jt|]; cbn;
    repeat match goal with
           | |- context [is_completed ?t] => destruct (is_completed t) eqn:?
           end; cbn;
    (split; [intros H; try done; repeat split; eauto; intros ? [= <-]; done
            |intros (Hs & Hb & Hj); try done]).
  all: try (specialize (Hb _ eq_refl); congruence).
  all: try (specialize (Hj _ eq_refl); congruence).
  destruct Hs as [[? ?]|[? ?]]; done.
Qed.

Section further_synchronizer.
Import TaskSynchronizer.


(** X2.  The results never hold a completed task, and never two tasks
    with the same content. *)
Theorem sync_results_settled (A B : list Task) (order : list string) :
  set_iteration (all_contents (by_content A) (by_content B)) order ->
  settled (fst (synchronize order A B))
  /\ settled (snd (synchronize order A B)).
Proof.
  intros Hit%set_iteration_NoDup. rewrite synchronize_emitted.
  split; by apply synchronize_settled.
Qed.

Lemma sync_results_settled_witness :
  let task_a := mk_Task "Task A" (mk_datetime 2023 1 1 0 0 0 0) false in
  let task_c_done := mk_Task "Task C" (mk_datetime 2023 1 3 0 0 0 0) true in
  let order := elements (all_contents (by_content [task_a; task_c_done])
                                      (by_content [task_a])) in
  settled (fst (synchronize order [task_a; task_c_done] [task_a])).
Proof.
  intros task_a task_c_done order.
  refine (proj1 (sync_results_settled [task_a; task_c_done] [task_a] order _)).
  unfold set_iteration. reflexivity.
Defined.

(** X3.  A content is kept exactly when some input holds it and no
    input holds it completed: a task with content [c] is in the
    result if and only if [c] is a key of one of the two mappings and
    the task under [c] is incomplete in each mapping that has it. *)
Theorem sync_keeps_content_iff (A B : list Task) (order : list string)
    (c : string) :
  set_iteration (all_contents (by_content A) (by_content B)) order ->
  (exists t, t ∈ fst (synchronize order A B) /\ content t = c) <->
  (is_Some (by_content A !! c) \/ is_Some (by_content B !! c))
  /\ (forall t, by_content A !! c = Some t -> is_completed t = false)
  /\ (forall t, by_content B !! c = Some t -> is_completed t = false).
Proof.
  intros Hit. rewrite <- emitted_nonempty.
  assert ((exists t, t ∈ fst (synchronize order A B) /\ content t = c)
          <-> with_content c (fst (synchronize order A B)) <> []) as ->.
  { unfold with_content. split.
    - intros (t & Hin & Hc) Hnil.
      assert (t ∈ filter (fun t => content t = c) (fst (synchronize order A B)))
        as Hf by (by apply list_elem_of_filter).
      rewrite Hnil in Hf. by apply not_elem_of_nil in Hf.
    - intros Hne. destruct (filter _ _) as [|t l] eqn:E; [done|].
      exists t. assert (t ∈ filter (fun t => content t = c)
                           (fst (synchronize order A B))) as Hf
        by (rewrite E; apply elem_of_cons; auto).
      apply list_elem_of_filter in Hf. tauto. }
  rewrite synchronize_emitted. cbn [fst].
  rewrite with_content_flat_map;
    [|by eapply set_iteration_NoDup|by intros; eapply emitted_content].
  destruct (decide (c ∈ order)) as [Hin|Hout]; [done|].
  split; [done|]. intros Hne. destruct Hout.
  eapply set_iteration_elem; [done|]. apply all_contents_elem.
  apply emitted_nonempty in Hne. tauto.
Qed.

Lemma sync_keeps_content_iff_witness :
  let task_a := mk_Task "Task A" (mk_datetime 2023 1 1 0 0 0 0) false in
  let order := elements (all_contents (by_content [task_a]) (by_content [])) in
  exists t, t ∈ fst (synchronize order [task_a] []) /\ content t = "Task A".
Proof.
  intros task_a order.
  refine (proj2 (sync_keeps_content_iff [task_a] [] order "Task A" _) _).
  - unfold set_iteration. reflexivity.
  - split; [left; vm_compute; eauto|].
    split; intros t; vm_compute; intros [= <-]; reflexivity.
Defined.

(** X4.  [synchronize] invents nothing: every task of the result has
    the content and the timestamp of an incomplete task of one of the
    inputs. *)
Theorem sync_result_provenance (A B : list Task) (order : list string)
    (t : Task) :
  t ∈ fst (synchronize order A B) ->
  exists t', (t' ∈ A \/ t' ∈ B)
    /\ content t' = content t /\ timestamp t' = timestamp t
    /\ is_completed t' = false.
Proof.
  rewrite synchronize_emitted. cbn [fst].
  intros (c & _ & Hin)%flat_map_elem.
  unfold emitted, sync_step in Hin.
  destruct (by_content A !! c) as [ta|] eqn:Ea,
           (by_content B !! c) as [tb|] eqn:Eb; cbn in Hin.
  - destruct (is_completed ta) eqn:Da, (is_completed tb) eqn:Db; cbn in Hin;
      try (by apply not_elem_of_nil in Hin).
    apply list_elem_of_singleton in Hin as ->. cbn.
    destruct (py_min_cases (timestamp ta) (timestamp tb)) as [->| ->].
    + exists ta. eauto 8 using by_content_elem, by_content_key.
    + exists tb. eauto 8 using by_content_elem, by_content_key.
  - destruct (is_completed ta) eqn:Da; cbn in Hin;
      [by apply not_elem_of_nil in Hin|].
    apply list_elem_of_singleton in Hin as ->.
    exists ta. eauto 8 using by_content_elem.
  - destruct (is_completed tb) eqn:Db; cbn in Hin;
      [by apply not_elem_of_nil in Hin|].
    apply list_elem_of_singleton in Hin as ->.
    exists tb. eauto 8 using by_content_elem.
  - by apply not_elem_of_nil in Hin.
Qed.

Lemma sync_result_provenance_witness :
  let late := mk_Task "Task D" (mk_datetime 2023 1 5 0 0 0 0) false in
  let early := mk_Task "Task D" (mk_datetime 2023 1 4 0 0 0 0) false in
  exists t', (t' ∈ [late] \/ t' ∈ [early])
    /\ content t' = content early /\ timestamp t' = timestamp early
    /\ is_completed t' = false.
Proof.
  intros late early.
  refine (sync_result_provenance [late] [early] ["Task D"] early _).
  vm_compute. apply list_elem_of_here.
Defined.

(** X5.  A collection with no completed task and no content twice,
    synchronized with an empty collection, comes back on both sides
    with exactly its tasks. *)
Theorem sync_with_empty (A : list Task) (order : list string) :
  settled A ->
  set_iteration (all_contents (by_content A) (by_content [])) order ->
  fst (synchronize order A []) ≡ₚ A /\ snd (synchronize order A []) ≡ₚ A.
Proof.
  intros HA Hit.
  assert (all_contents (by_content A) (by_content [])
          = all_contents (by_content A) (by_content A)) as Heq.
  { unfold all_contents, by_content at 2. cbn [foldl].
    rewrite dom_empty_L. by rewrite union_empty_r_L, union_idemp_L. }
  rewrite Heq in Hit. apply settled_iteration in Hit; [|apply HA].
  rewrite synchronize_emitted. cbn [fst snd].
  assert (flat_map (emitted (by_content A) (by_content [])) order ≡ₚ A);
    [|done].
  rewrite (Permutation_flat_map _ Hit).
  rewrite flat_map_singletons; [done|].
  intros t Ht. destruct HA as [Hnd Hinc].
  unfold emitted, sync_step. rewrite settled_lookup by done.
  unfold by_content at 1. cbn [foldl]. rewrite lookup_empty.
  by rewrite (Hinc t Ht).
Qed.

Lemma sync_with_empty_witness :
  let task_a := mk_Task "Task A" (mk_datetime 2023 1 1 0 0 0 0) false in
  let order := elements (all_contents (by_content [task_a]) (by_content [])) in
  fst (synchronize order [task_a] []) ≡ₚ [task_a].
Proof.
  intros task_a order.
  refine (proj1 (sync_with_empty [task_a] order _ _)).
  - split; [apply NoDup_singleton|].
    intros t Ht. apply list_elem_of_singleton in Ht as ->. reflexivity.
  - unfold set_iteration. reflexivity.
Defined.

End further_synchronizer.

(** ** Sorting before writing *)

Lemma descending_tail t l : descending (t :: l) -> descending l.
Proof. destruct l as [|u l]; [done|]. by intros [_ H]. Qed.

Lemma insert_desc_descending t l :
  descending l -> descending (insert_desc t l).
Proof.
  induction l as [|u l IH]; intros Hl; [done|]. cbn [insert_desc].
  destruct (datetime_ltb (timestamp t) (timestamp u)) eqn:E.
  - assert (datetime_ltb (timestamp u) (timestamp t) = false) as Hut
      by (by apply lex_ltb_asym).
    specialize (IH (descending_tail _ _ Hl)).
    destruct l as [|v r]; [by split|].
    destruct Hl as [Huv Hl]. cbn [insert_desc] in *.
    destruct (datetime_ltb (timestamp t) (timestamp v)); by split.
  - by split.
Qed.

Lemma sorted_desc_descending l : descending (sorted_desc l).
Proof.
  induction l as [|t l IH]; [done|]. by apply insert_desc_descending.
Qed.

Lemma sorted_desc_fixed l : descending l -> sorted_desc l = l.
Proof.
  induction l as [|t l IH]; intros Hl; [done|].
  cbn [sorted_desc foldr]. fold (sorted_desc l).
  rewrite IH by (by eapply descending_tail).
  destruct l as [|u r]; [done|]. destruct Hl as [Htu _].
  cbn [insert_desc]. by rewrite Htu.
Qed.

(** X6.  The sort of [write_file] lists the tasks latest first, keeps
    exactly the tasks it was given, and leaves a list that is already
    latest-first as it is (tasks of equal timestamp keep their order;
    sorting twice is sorting once). *)
Theorem sorted_desc_spec (tasks : list Task) :
  descending (sorted_desc tasks)
  /\ sorted_desc tasks ≡ₚ tasks
  /\ (descending tasks -> sorted_desc tasks = tasks)
  /\ sorted_desc (sorted_desc tasks) = sorted_desc tasks.
Proof.
  split; [apply sorted_desc_descending|].
  split; [apply sorted_desc_perm|].
  split; [apply sorted_desc_fixed|].
  apply sorted_desc_fixed, sorted_desc_descending.
Qed.

Lemma sorted_desc_spec_witness :
  let t1 := mk_Task "a" (mk_datetime 2024 1 2 0 0 0 0) false in
  let t2 := mk_Task "b" (mk_datetime 2024 1 1 0 0 0 0) false in
  let t3 := mk_Task "c" (mk_datetime 2024 1 1 0 0 0 0) true in
  sorted_desc [t1; t2; t3] = [t1; t2; t3].
Proof.
  intros t1 t2 t3.
  refine (proj1 (proj2 (proj2 (sorted_desc_spec [t1; t2; t3]))) _).
  repeat split.
Defined.

(** ** What a scan can produce *)

Lemma beorg_careful : careful BeOrgParser._parse_task_from_line.
Proof.
  intros w line lines i.
  unfold BeOrgParser._parse_task_from_line,
    BeOrgParser._parse_beorg_timestamp_and_create_task.
  destruct (negb _).
  { split; [done|]. exists []. split; [by rewrite app_nil_r|simpl; lia]. }
  destruct (lines !! (i + 1)%nat) as [l|] eqn:E.
  - destruct (re_match_group _ _ _ (strip l)) as [ts|].
    + destruct (strptime ts); [by eauto|].
      split; [done|]. eexists [_]. split; [done|]. simpl. lia.
    + split; [done|]. eexists [_]. split; [done|]. simpl. lia.
  - split; [done|]. eexists [_]. split; [done|]. simpl. lia.
Qed.

Lemma journelly_careful :
  careful JournellyParser._parse_journelly_task_from_line.
Proof.
  intros w line lines i.
  unfold JournellyParser._parse_journelly_task_from_line.
  destruct (re_match_group _ _ _ line) as [ts|].
  2: { split; [done|]. exists []. split; [by rewrite app_nil_r|simpl; lia]. }
  destruct (strptime ts).
  2: { split; [done|]. eexists [_]. split; [done|]. simpl. lia. }
  destruct (lines !! (i + 1)%nat) as [l|] eqn:E.
  - destruct (_ || _); [by eauto|].
    split; [done|]. eexists [_]. split; [done|]. simpl. lia.
  - split; [done|]. eexists [_]. split; [done|]. simpl. lia.
Qed.

Section scan_careful.
Variable parse_line : line_parser.
Hypothesis parse_line_careful : careful parse_line.

(** Every task accounts for two lines of the text and every warning
    for one. *)
Lemma scan_count lines fuel i tasks w tasks' w' :
  scan parse_line fuel lines i tasks w = Some (tasks', w') ->
  (i <= length lines)%nat ->
  (2 * length tasks' + length w' + i
   <= 2 * length tasks + length w + length lines)%nat.
Proof.
  revert i tasks w. induction fuel as [|fuel IH]; intros i tasks w.
  - simpl. destruct (lines !! i); [done|]. intros [= <- <-]. lia.
  - destruct (lines !! i) as [l|] eqn:E;
      [|rewrite scan_end by done; intros [= <- <-]; lia].
    rewrite (scan_step _ _ _ _ l) by done.
    pose proof (parse_line_careful w (strip l) lines i) as Hc.
    pose proof (lookup_lt_Some _ _ _ E) as Hi.
    destruct (parse_line w (strip l) lines i) as [[[t|] n] w1].
    + destruct Hc as (-> & -> & [l' Hl']).
      apply lookup_lt_Some in Hl'. intros Hs _.
      apply IH in Hs; [|lia]. rewrite length_app in Hs. simpl in Hs. lia.
    + destruct Hc as (-> & new & -> & Hnew). intros Hs _.
      apply IH in Hs; [|lia]. rewrite length_app in Hs. lia.
Qed.
End scan_careful.

Section scan_skip.
Variable parse_line : line_parser.

(** Lines that the per-line function passes over leave no trace. *)
Lemma scan_skip lines :
  (forall l w lines' i,
      l ∈ lines -> parse_line w (strip l) lines' i = (None, 0%nat, w)) ->
  forall fuel i tasks w,
    (length lines - i <= fuel)%nat ->
    scan parse_line fuel lines i tasks w = Some (tasks, w).
Proof.
  intros Hskip. induction fuel as [|fuel IH]; intros i tasks w Hfuel.
  - apply scan_end, lookup_ge_None. lia.
  - destruct (lines !! i) as [l|] eqn:E; [|by apply scan_end].
    rewrite (scan_step _ _ _ _ l) by done.
    rewrite Hskip by (by eapply list_elem_of_lookup_2).
    apply IH. apply lookup_lt_Some in E. lia.
Qed.
End scan_skip.

Section parser_extras.

(** X7.  Every task accounts for two lines of the text and every
    warning for one: for both parsers, twice the number of tasks plus
    the number of new warnings is at most the number of lines of the
    stripped text. *)
Theorem parse_counts (w : list string) (content : string) :
  (exists tasks new,
      BeOrgParser._parse_tasks w content = Some (tasks, w ++ new)
      /\ (2 * length tasks + length new
          <= length (split_nl (strip content)))%nat)
  /\ (exists tasks new,
      JournellyParser._parse_tasks w content = Some (tasks, w ++ new)
      /\ (2 * length tasks + length new
          <= length (split_nl (strip content)))%nat).
Proof.
  split.
  - unfold BeOrgParser._parse_tasks.
    destruct (scan_total BeOrgParser._parse_task_from_line
                (length (split_nl (strip content)))
                (split_nl (strip content)) 0 [] w) as [[tasks w'] Hres];
      [lia|].
    destruct (scan_warnings _ _ _ _ _ _ _ beorg_line_warnings Hres)
      as [new Hnew].
    simpl in Hnew. subst w'. exists tasks, new. split; [done|].
    apply (scan_count _ beorg_careful) in Hres; [|lia].
    rewrite length_app in Hres. simpl in Hres. lia.
  - unfold JournellyParser._parse_tasks.
    destruct (scan_total JournellyParser._parse_journelly_task_from_line
                (length (split_nl (strip content)))
                (split_nl (strip content)) 0 [] w) as [[tasks w'] Hres];
      [lia|].
    destruct (scan_warnings _ _ _ _ _ _ _ journelly_line_warnings Hres)
      as [new Hnew].
    simpl in Hnew. subst w'. exists tasks, new. split; [done|].
    apply (scan_count _ journelly_careful) in Hres; [|lia].
    rewrite length_app in Hres. simpl in Hres. lia.
Qed.

(** X8.  A text none of whose lines is a header yields no task and
    no warning: foreign lines are passed over in silence.  For the
    inbox format a header is a line that, stripped, starts with
    [* TODO ] or [* DONE ]; for the journal format one that starts
    with the timestamp header pattern. *)
Theorem text_without_headers (w : list string) (content : string) :
  (Forall (fun l => BeOrgParser.is_header (strip l) = false)
     (split_nl (strip content)) ->
   BeOrgParser._parse_tasks w content = Some ([], w))
  /\ (Forall (fun l => JournellyParser.header_match (strip l) = None)
        (split_nl (strip content)) ->
      JournellyParser._parse_tasks w content = Some ([], w)).
Proof.
  split; intros Hall.
  - unfold BeOrgParser._parse_tasks. apply scan_skip; [|lia].
    intros l w' lines' i Hl. apply beorg_not_header.
    by eapply (proj1 (Forall_forall _ _) Hall).
  - unfold JournellyParser._parse_tasks. apply scan_skip; [|lia].
    intros l w' lines' i Hl. apply journelly_not_header.
    by eapply (proj1 (Forall_forall _ _) Hall).
Qed.

Lemma text_without_headers_witness :
  BeOrgParser._parse_tasks []
    ("* Some other header" +:+ String newline "plain text")
  = Some ([], []).
Proof.
  refine (proj1 (text_without_headers []
            ("* Some other header" +:+ String newline "plain text")) _).
  vm_compute. repeat constructor.
Defined.

End parser_extras.

(** ** Lines are read through [strip] *)

Section scan_same_lines.
Variable parse_line : line_parser.
Variable same : string -> string -> Prop.

Hypothesis same_strip : forall a b, same a b -> strip a = strip b.
Hypothesis parse_line_same : forall w line lines1 lines2 i,
    Forall2 same lines1 lines2 ->
    parse_line w line lines1 i = parse_line w line lines2 i.

Lemma scan_same_lines lines1 lines2 :
  Forall2 same lines1 lines2 ->
  forall fuel i tasks w,
    scan parse_line fuel lines1 i tasks w
    = scan parse_line fuel lines2 i tasks w.
Proof.
  intros Hall. induction fuel as [|fuel IH]; intros i tasks w.
  - simpl. destruct (lines1 !! i) as [l1|] eqn:E1.
    + by destruct (Forall2_lookup_l _ _ _ _ _ Hall E1) as (l2 & -> & _).
    + apply lookup_ge_None in E1.
      rewrite (Forall2_length _ _ _ Hall) in E1.
      apply lookup_ge_None in E1. by rewrite E1.
  - destruct (lines1 !! i) as [l1|] eqn:E1.
    + destruct (Forall2_lookup_l _ _ _ _ _ Hall E1) as (l2 & E2 & Hs).
      rewrite (scan_step _ _ _ _ l1), (scan_step _ _ _ _ l2) by done.
      rewrite (same_strip _ _ Hs), (parse_line_same _ _ _ _ _ Hall).
      destruct (parse_line w (strip l2) lines2 i) as [[t n] w']. apply IH.
    + rewrite scan_end by done.
      apply lookup_ge_None in E1.
      rewrite (Forall2_length _ _ _ Hall) in E1.
      apply lookup_ge_None in E1. by rewrite scan_end.
Qed.
End scan_same_lines.

Lemma beorg_line_same_strip w line lines1 lines2 i :
  Forall2 (fun a b => strip a = strip b) lines1 lines2 ->
  BeOrgParser._parse_task_from_line w line lines1 i
  = BeOrgParser._parse_task_from_line w line lines2 i.
Proof.
  intros Hall. unfold BeOrgParser._parse_task_from_line,
    BeOrgParser._parse_beorg_timestamp_and_create_task.
  destruct (negb _); [done|].
  destruct (lines1 !! (i + 1)%nat) as [l1|] eqn:E1.
  - destruct (Forall2_lookup_l _ _ _ _ _ Hall E1) as (l2 & -> & ->). done.
  - apply lookup_ge_None in E1. rewrite (Forall2_length _ _ _ Hall) in E1.
    apply lookup_ge_None in E1. by rewrite E1.
Qed.

Lemma journelly_line_same_strip w line lines1 lines2 i :
  Forall2 (fun a b => strip a = strip b) lines1 lines2 ->
  JournellyParser._parse_journelly_task_from_line w line lines1 i
  = JournellyParser._parse_journelly_task_from_line w line lines2 i.
Proof.
  intros Hall. unfold JournellyParser._parse_journelly_task_from_line.
  destruct (re_match_group _ _ _ line) as [ts|]; [|done].
  destruct (strptime ts); [|done].
  destruct (lines1 !! (i + 1)%nat) as [l1|] eqn:E1.
  - destruct (Forall2_lookup_l _ _ _ _ _ Hall E1) as (l2 & -> & ->). done.
  - apply lookup_ge_None in E1. rewrite (Forall2_length _ _ _ Hall) in E1.
    apply lookup_ge_None in E1. by rewrite E1.
Qed.

(** X9.  The scanning loop of both parsers reads every line through
    [strip()] only: two lists of lines that agree line by line once
    stripped (they differ in indentation or trailing blanks) give the
    same tasks and the same warnings. *)
Theorem scan_ignores_indentation (lines1 lines2 : list string)
    (fuel i : nat) (tasks : list Task) (w : list string) :
  Forall2 (fun a b => strip a = strip b) lines1 lines2 ->
  scan BeOrgParser._parse_task_from_line fuel lines1 i tasks w
  = scan BeOrgParser._parse_task_from_line fuel lines2 i tasks w
  /\ scan JournellyParser._parse_journelly_task_from_line fuel lines1 i tasks w
     = scan JournellyParser._parse_journelly_task_from_line fuel lines2 i
         tasks w.
Proof.
  intros Hall. split.
  - apply scan_same_lines with (same := fun a b => strip a = strip b);
      auto using beorg_line_same_strip.
  - apply scan_same_lines with (same := fun a b => strip a = strip b);
      auto using journelly_line_same_strip.
Qed.

Lemma scan_ignores_indentation_witness :
  scan BeOrgParser._parse_task_from_line 2
    ["  * TODO Buy milk"; "   [2024-01-01 Mon 10:00]  "] 0 [] []
  = scan BeOrgParser._parse_task_from_line 2
      ["* TODO Buy milk"; "[2024-01-01 Mon 10:00]"] 0 [] [].
Proof.
  refine (proj1 (scan_ignores_indentation
    ["  * TODO Buy milk"; "   [2024-01-01 Mon 10:00]  "]
    ["* TODO Buy milk"; "[2024-01-01 Mon 10:00]"] 2 0 [] [] _)).
  repeat constructor.
Defined.

(** ** What a parsed task looks like *)

Lemma split_nl_lines_no_newline s :
  Forall (fun l => no_newline l = true) (split_nl s).
Proof.
  induction s as [|c s IH]; [by repeat constructor|].
  rewrite split_nl_cons. destruct (Ascii.eqb c newline) eqn:Hc.
  - by constructor.
  - destruct (split_nl s) as [|l ls].
    + constructor; [|constructor]. cbn [no_newline]. by rewrite Hc.
    + apply Forall_cons in IH as [Hl Hls]. constructor; [|done].
      cbn [no_newline]. by rewrite Hc, Hl.
Qed.

Lemma no_newline_lstrip s : no_newline s = true -> no_newline (lstrip s) = true.
Proof.
  induction s as [|c s IH]; [done|]. cbn [lstrip].
  destruct (is_space c); [|done].
  cbn [no_newline]. intros [_ H]%andb_true_iff. auto.
Qed.

Lemma no_newline_rstrip s : no_newline s = true -> no_newline (rstrip s) = true.
Proof.
  induction s as [|c s IH]; [done|]. rewrite rstrip_cons.
  cbn [no_newline]. intros [Hc Hs]%andb_true_iff. specialize (IH Hs).
  destruct (rstrip s) as [|c' r].
  - destruct (is_space c); [done|]. cbn [no_newline]. by rewrite Hc.
  - cbn [no_newline] in *. by rewrite Hc, IH.
Qed.

Lemma no_newline_strip s : no_newline s = true -> no_newline (strip s) = true.
Proof. intros H. by apply no_newline_rstrip, no_newline_lstrip. Qed.

Lemma no_newline_str_from n s :
  no_newline s = true -> no_newline (str_from n s) = true.
Proof.
  revert s. induction n as [|n IH]; intros [|c s]; try done.
  cbn [no_newline str_from]. intros [_ H]%andb_true_iff. auto.
Qed.

Lemma rstrip_empty_or_ends s :
  rstrip s = "" \/ ends_nonspace (rstrip s) = true.
Proof.
  induction s as [|c s IH]; [by left|]. rewrite rstrip_cons.
  destruct (rstrip s) as [|c' r].
  - destruct (is_space c) eqn:Hc; [by left|]. right. cbn. by rewrite Hc.
  - right. by destruct IH.
Qed.

Lemma strip_empty_or_ends s : strip s = "" \/ ends_nonspace (strip s) = true.
Proof. apply rstrip_empty_or_ends. Qed.

Lemma prefix_split p s :
  String.prefix p s = true -> s = p +:+ str_from (String.length p) s.
Proof.
  revert s. induction p as [|a p IH]; intros s; [by destruct s|].
  destruct s as [|b s]; [done|]. cbn [String.prefix].
  destruct (ascii_dec a b) as [->|]; [|done].
  intros H. cbn [String.length str_from String.append]. f_equal. by apply IH.
Qed.

Lemma match_classes_cons_inv k pat s m rest :
  match_classes (k :: pat) s = Some (m, rest) ->
  exists c s' m',
    s = String c s' /\ m = String c m' /\ cclass_matches k c = true
    /\ match_classes pat s' = Some (m', rest).
Proof.
  cbn [match_classes]. destruct s as [|c s]; [done|].
  destruct (cclass_matches k c) eqn:Hk; [|done].
  destruct (match_classes pat s) as [[m' rest']|] eqn:Hp; [|done].
  intros [= <- <-]. by exists c, s, m'.
Qed.

(** A text that matches the timestamp pattern is twenty characters
    with digits at the places of the numbers. *)
Lemma match_timestamp_inv s m rest :
  match_classes timestamp_pattern s = Some (m, rest) ->
  exists y1 y2 y3 y4 m1 m2 d1 d2 a1 a2 a3 H1 H2 M1 M2,
    m = ts_string y1 y2 y3 y4 m1 m2 d1 d2 a1 a2 a3 H1 H2 M1 M2
    /\ s = m +:+ rest
    /\ is_digit y1 = true /\ is_digit y2 = true /\ is_digit y3 = true
    /\ is_digit y4 = true /\ is_digit m1 = true /\ is_digit m2 = true
    /\ is_digit d1 = true /\ is_digit d2 = true
    /\ is_digit H1 = true /\ is_digit H2 = true
    /\ is_digit M1 = true /\ is_digit M2 = true.
Proof.
  intros H. pose proof (match_classes_sound _ _ _ _ H) as Hs.
  unfold timestamp_pattern in H.
  cbn [lits list_ascii_of_string fmap list_fmap app] in H.
  do 20 (apply match_classes_cons_inv in H;
         destruct H as (? & ? & ? & -> & -> & ? & H)).
  cbn [match_classes] in H. injection H as <- <-.
  repeat match goal with
         | H : cclass_matches (Lit _) _ = true |- _ =>
             cbn [cclass_matches] in H; apply Ascii.eqb_eq in H; subst
         | H : cclass_matches Digit _ = true |- _ =>
             cbn [cclass_matches] in H
         end.
  do 15 eexists. split; [reflexivity|]. split; [exact Hs|].
  repeat split; assumption.
Qed.

Lemma digit_val_range c : is_digit c = true -> 0 <= digit_val c <= 9.
Proof. ascii_cases c; vm_compute; intros; split; discriminate. Qed.

(** Whatever [strptime] returns is a valid date and time with no
    seconds. *)
Lemma strptime_minute_precision ts d :
  strptime ts = Some d -> minute_precision d = true.
Proof.
  unfold strptime.
  destruct (match_classes timestamp_pattern ts) as [[m [|c r]]|] eqn:E;
    [|done|done].
  apply match_timestamp_inv in E
    as (y1 & y2 & y3 & y4 & m1 & m2 & d1 & d2 & a1 & a2 & a3 & H1 & H2
        & M1 & M2 & -> & -> & Dy1 & Dy2 & Dy3 & Dy4 & _ & _ & _ & _
        & DH1 & DH2 & DM1 & DM2).
  rewrite append_nil_r. unfold ts_string.
  cbn [field String.substring].
  destruct (_ && _) eqn:C; [|done]. intros [= <-].
  rewrite !andb_true_iff, !Z.leb_le in C.
  apply digit_val_range in Dy1, Dy2, Dy3, Dy4, DH1, DH2, DM1, DM2.
  unfold int_of_digits in *.
  cbn [list_ascii_of_string fold_left] in *.
  unfold minute_precision, valid_datetime.
  cbn [year month day hour minute second microsecond].
  rewrite !andb_true_iff, !Z.leb_le, !Z.eqb_eq. lia.
Qed.

Lemma ends_nonspace_app_r p c :
  c <> "" -> ends_nonspace (p +:+ c) = ends_nonspace c.
Proof.
  intros Hc. induction p as [|a p IH]; [done|].
  change (String a p +:+ c) with (String a (p +:+ c)).
  rewrite <- IH. destruct (p +:+ c) eqn:E; [|done].
  destruct p; [|done]. by destruct Hc.
Qed.

(** What follows a marker that ends with a space, on a line that does
    not end with whitespace, is not empty and does not end with
    whitespace either. *)
Lemma marker_content_ends p line :
  ends_nonspace p = false ->
  String.prefix p line = true -> ends_nonspace line = true ->
  ends_nonspace (str_from (String.length p) line) = true.
Proof.
  intros Hp Hpre He. apply prefix_split in Hpre.
  remember (str_from (String.length p) line) as c eqn:Ec. clear Ec.
  subst line.
  destruct c as [|c0 c]; [by rewrite append_nil_r, Hp in He|].
  by rewrite ends_nonspace_app_r in He.
Qed.

Lemma prefixed_line_ends p l :
  p <> "" -> String.prefix p (strip l) = true -> ends_nonspace (strip l) = true.
Proof.
  intros Hp Hpre. destruct (strip_empty_or_ends l) as [He|He]; [|done].
  rewrite He in Hpre. by destruct p.
Qed.

Lemma beorg_line_storable w l lines i t n w' :
  no_newline l = true ->
  BeOrgParser._parse_task_from_line w (strip l) lines i = (Some t, n, w') ->
  storable t = true.
Proof.
  intros Hl. unfold BeOrgParser._parse_task_from_line,
    BeOrgParser._parse_beorg_timestamp_and_create_task.
  destruct (negb _) eqn:Hh; [done|].
  destruct (lines !! (i + 1)%nat) as [l'|]; [|done].
  destruct (re_match_group _ _ _ (strip l')) as [ts|]; [|done].
  destruct (strptime ts) as [d|] eqn:Ed; [|done].
  intros Heq.
  assert (t = _create_task_and_log (str_from 7 (strip l)) d
                (startswith "* DONE " (strip l))) as -> by congruence.
  unfold storable, _create_task_and_log.
  cbn [content timestamp].
  rewrite (strptime_minute_precision _ _ Ed), andb_true_r.
  rewrite no_newline_str_from by (by apply no_newline_strip).
  apply negb_false_iff, orb_true_iff in Hh. unfold startswith in Hh.
  destruct Hh as [Hh|Hh];
    (apply (fun Hp => marker_content_ends _ _ Hp Hh); [reflexivity|]);
    (eapply prefixed_line_ends; [|exact Hh]; done).
Qed.

Lemma journelly_line_storable w line lines i t n w' :
  Forall (fun l => no_newline l = true) lines ->
  JournellyParser._parse_journelly_task_from_line w line lines i
  = (Some t, n, w') ->
  storable t = true.
Proof.
  intros Hall. unfold JournellyParser._parse_journelly_task_from_line.
  destruct (re_match_group _ _ _ line) as [ts|]; [|done].
  destruct (strptime ts) as [d|] eqn:Ed; [|done].
  destruct (lines !! (i + 1)%nat) as [l'|] eqn:El; [|done].
  destruct (_ || _) eqn:Hh; [|done].
  intros Heq.
  assert (t = _create_task_and_log (str_from 6 (strip l')) d
                (startswith "- [X] " (strip l'))) as -> by congruence.
  unfold storable, _create_task_and_log.
  cbn [content timestamp].
  rewrite (strptime_minute_precision _ _ Ed), andb_true_r.
  assert (no_newline l' = true) as Hl'.
  { eapply (proj1 (Forall_forall _ _) Hall).
    by eapply list_elem_of_lookup_2. }
  rewrite no_newline_str_from by (by apply no_newline_strip).
  apply orb_true_iff in Hh. unfold startswith in Hh.
  destruct Hh as [Hh|Hh];
    (apply (fun Hp => marker_content_ends _ _ Hp Hh); [reflexivity|]);
    (eapply prefixed_line_ends; [|exact Hh]; done).
Qed.

Section scan_Forall.
Variable parse_line : line_parser.
Variable P : Task -> Prop.
Variable lines : list string.

Hypothesis parse_line_P : forall w l i t n w',
    lines !! i = Some l ->
    parse_line w (strip l) lines i = (Some t, n, w') -> P t.

Lemma scan_Forall fuel i tasks w res :
  Forall P tasks ->
  scan parse_line fuel lines i tasks w = Some res ->
  Forall P (fst res).
Proof.
  revert i tasks w. induction fuel as [|fuel IH]; intros i tasks w HP.
  - simpl. destruct (lines !! i); [done|]. by intros [= <-].
  - destruct (lines !! i) as [l|] eqn:E;
      [|rewrite scan_end by done; by intros [= <-]].
    rewrite (scan_step _ _ _ _ l) by done.
    pose proof (parse_line_P w l i) as Hstep.
    destruct (parse_line w (strip l) lines i) as [[[t|] n] w'].
    + apply IH. apply Forall_app. split; [done|].
      constructor; [|constructor]. by eapply Hstep.
    + by apply IH.
Qed.
End scan_Forall.

Lemma beorg_parsed_storable w content tasks w' :
  BeOrgParser._parse_tasks w content = Some (tasks, w') ->
  Forall (fun t => storable t = true) tasks.
Proof.
  unfold BeOrgParser._parse_tasks. intros H.
  change tasks with (fst (tasks, w')).
  eapply (scan_Forall BeOrgParser._parse_task_from_line); [|done|exact H].
  intros w0 l i t n w1 Hl. apply beorg_line_storable.
  eapply (proj1 (Forall_forall _ _) (split_nl_lines_no_newline _)).
  by eapply list_elem_of_lookup_2.
Qed.

Lemma journelly_parsed_storable w content tasks w' :
  JournellyParser._parse_tasks w content = Some (tasks, w') ->
  Forall (fun t => storable t = true) tasks.
Proof.
  unfold JournellyParser._parse_tasks. intros H.
  change tasks with (fst (tasks, w')).
  eapply (scan_Forall JournellyParser._parse_journelly_task_from_line);
    [|done|exact H].
  intros w0 l i t n w1 Hl. apply journelly_line_storable.
  apply split_nl_lines_no_newline.
Qed.

Section parsed_task_extras.

(** X10.  Every task a parser returns can be written back: its
    content has no line feed, is not empty and does not end with
    whitespace, and its timestamp is a valid date and time with zero
    seconds and microseconds. *)
Theorem parsed_tasks_storable (w : list string) (text : string)
    (tasks : list Task) (w' : list string) :
  BeOrgParser._parse_tasks w text = Some (tasks, w')
  \/ JournellyParser._parse_tasks w text = Some (tasks, w') ->
  Forall (fun t =>
            no_newline (content t) = true
            /\ content t <> ""
            /\ ends_nonspace (content t) = true
            /\ valid_datetime (timestamp t) = true
            /\ second (timestamp t) = 0
            /\ microsecond (timestamp t) = 0) tasks.
Proof.
  intros H.
  assert (Forall (fun t => storable t = true) tasks) as Hst
    by (destruct H; eauto using beorg_parsed_storable,
                                journelly_parsed_storable).
  eapply Forall_impl; [exact Hst|]. intros t Ht. cbv beta in Ht.
  pose proof Ht as (Hn & He & Hv & Hm)%storable_inv.
  unfold minute_precision in Hm.
  rewrite !andb_true_iff, !Z.eqb_eq in Hm.
  repeat split; try tauto.
  intros Hc. by rewrite Hc in He.
Qed.

Lemma parsed_tasks_storable_witness :
  Forall (fun t =>
            no_newline (content t) = true
            /\ content t <> ""
            /\ ends_nonspace (content t) = true
            /\ valid_datetime (timestamp t) = true
            /\ second (timestamp t) = 0
            /\ microsecond (timestamp t) = 0)
    [mk_Task "Buy milk" (mk_datetime 2024 1 1 10 0 0 0) false].
Proof.
  refine (parsed_tasks_storable []
    ("  * TODO Buy milk  " +:+ String newline "[2024-01-01 Mon 10:00] x")
    _ [] _).
  left. vm_compute. reflexivity.
Defined.

(** X11.  What a parser returns survives being written and read
    again, in its own format and in the other one, when no task is
    dated before the year 1000: formatting the tasks parsed from a
    text, writing the lines as a file text and parsing it gives the
    same tasks, in order and with no warning. *)
Theorem parsed_tasks_rewritable (w : list string) (text : string)
    (tasks : list Task) (w' w2 : list string) :
  BeOrgParser._parse_tasks w text = Some (tasks, w')
  \/ JournellyParser._parse_tasks w text = Some (tasks, w') ->
  Forall (fun t => 1000 <= year (timestamp t)) tasks ->
  BeOrgParser._parse_tasks w2 (file_text (BeOrgParser._format_tasks tasks))
  = Some (tasks, w2)
  /\ JournellyParser._parse_tasks w2
       (file_text (JournellyParser._format_tasks tasks))
     = Some (tasks, w2).
Proof.
  intros H Hy.
  assert (Forall (fun t => storable t = true) tasks) as Hst
    by (destruct H; eauto using beorg_parsed_storable,
                                journelly_parsed_storable).
  pose proof (storable_legible _ Hst Hy) as HL.
  split; [by apply beorg_roundtrip|by apply journelly_roundtrip].
Qed.

Lemma parsed_tasks_rewritable_witness :
  let tasks := [mk_Task "Buy milk" (mk_datetime 2024 1 1 10 0 0 0) false] in
  JournellyParser._parse_tasks []
    (file_text (JournellyParser._format_tasks tasks))
  = Some (tasks, []).
Proof.
  intros tasks.
  refine (proj2 (parsed_tasks_rewritable []
    ("  * TODO Buy milk  " +:+ String newline "[2024-01-01 Mon 10:00] x")
    tasks [] [] _ _)).
  - left. vm_compute. reflexivity.
  - repeat constructor. vm_compute. discriminate.
Defined.

End parsed_task_extras.

(** ** Files and the whole run *)

Lemma emitted_storable A B c t :
  Forall (fun t => storable t = true) A ->
  Forall (fun t => storable t = true) B ->
  t ∈ emitted (TaskSynchronizer.by_content A) (TaskSynchronizer.by_content B) c ->
  storable t = true.
Proof.
  intros HA HB. unfold emitted, TaskSynchronizer.sync_step.
  assert (forall L u, Forall (fun t => storable t = true) L ->
            TaskSynchronizer.by_content L !! c = Some u ->
            storable u = true /\ content u = c) as Hlook.
  { intros L u HL Hu. split; [|by eapply by_content_key].
    eapply (proj1 (Forall_forall _ _) HL). by eapply by_content_elem. }
  destruct (TaskSynchronizer.by_content A !! c) as [ta|] eqn:Ea,
           (TaskSynchronizer.by_content B !! c) as [tb|] eqn:Eb; cbn.
  - destruct (Hlook A ta HA Ea) as [Sa Ca], (Hlook B tb HB Eb) as [Sb _].
    destruct (is_completed ta || is_completed tb);
      intros Hin; [by apply not_elem_of_nil in Hin|].
    apply list_elem_of_singleton in Hin as ->.
    apply storable_inv in Sa as (Na & Ea' & _ & Ma).
    apply storable_inv in Sb as (_ & _ & _ & Mb).
    unfold storable. cbn [content timestamp]. rewrite <- Ca, Na, Ea'.
    by destruct (py_min_cases (timestamp ta) (timestamp tb)) as [-> | ->].
  - destruct (Hlook A ta HA Ea) as [Sa _].
    destruct (is_completed ta); intros Hin;
      [by apply not_elem_of_nil in Hin|].
    by apply list_elem_of_singleton in Hin as ->.
  - destruct (Hlook B tb HB Eb) as [Sb _].
    destruct (is_completed tb); intros Hin;
      [by apply not_elem_of_nil in Hin|].
    by apply list_elem_of_singleton in Hin as ->.
  - intros Hin. by apply not_elem_of_nil in Hin.
Qed.

Lemma flat_map_emitted_storable A B order :
  Forall (fun t => storable t = true) A ->
  Forall (fun t => storable t = true) B ->
  Forall (fun t => storable t = true)
    (flat_map (emitted (TaskSynchronizer.by_content A)
                 (TaskSynchronizer.by_content B)) order).
Proof.
  intros HA HB. apply Forall_forall. intros t (c & _ & Hin)%flat_map_elem.
  exact (emitted_storable A B c t HA HB Hin).
Qed.

Lemma beorg_parse_total w text :
  exists tasks w', BeOrgParser._parse_tasks w text = Some (tasks, w').
Proof.
  unfold BeOrgParser._parse_tasks.
  destruct (scan_total BeOrgParser._parse_task_from_line
              (length (split_nl (strip text))) (split_nl (strip text))
              0 [] w) as [[tasks w'] H]; [lia|eauto].
Qed.

Lemma journelly_parse_total w text :
  exists tasks w', JournellyParser._parse_tasks w text = Some (tasks, w').
Proof.
  unfold JournellyParser._parse_tasks.
  destruct (scan_total JournellyParser._parse_journelly_task_from_line
              (length (split_nl (strip text))) (split_nl (strip text))
              0 [] w) as [[tasks w'] H]; [lia|eauto].
Qed.

(** Reading a file that can be opened: tasks that can be written
    back. *)
Lemma beorg_parse_file_ok fs w filepath :
  fs_read fs filepath <> IOError ->
  exists tasks w',
    BaseParser.parse_file BeOrgParser._parse_tasks fs w filepath
    = Some (inr (tasks, w'))
    /\ Forall (fun t => storable t = true) tasks.
Proof.
  intros Hr. unfold BaseParser.parse_file.
  destruct (fs_read fs filepath) as [| |text]; [by eauto|done|].
  destruct (beorg_parse_total w text) as (tasks & w' & H).
  rewrite H. eauto using beorg_parsed_storable.
Qed.

Lemma journelly_parse_file_ok fs w filepath :
  fs_read fs filepath <> IOError ->
  exists tasks w',
    BaseParser.parse_file JournellyParser._parse_tasks fs w filepath
    = Some (inr (tasks, w'))
    /\ Forall (fun t => storable t = true) tasks.
Proof.
  intros Hr. unfold BaseParser.parse_file.
  destruct (fs_read fs filepath) as [| |text]; [by eauto|done|].
  destruct (journelly_parse_total w text) as (tasks & w' & H).
  rewrite H. eauto using journelly_parsed_storable.
Qed.

Lemma fs_read_readable fs filepath :
  filepath ∉ unreadable fs -> fs_read fs filepath <> IOError.
Proof.
  intros H. unfold fs_read. rewrite decide_False by done.
  by destruct (files fs !! filepath).
Qed.

Lemma fs_read_written fs filepath text other :
  filepath ∉ unreadable fs ->
  fs_read (mk_fs (<[filepath := text]> (files fs)) (unreadable fs) other)
    filepath = Contents (universal_newlines text).
Proof.
  intros H. unfold fs_read. cbn [unreadable files].
  rewrite decide_False by done. by rewrite lookup_insert_eq.
Qed.

Lemma incomplete_perm (R R' : list Task) :
  R ≡ₚ R' ->
  (forall t, t ∈ R' -> is_completed t = false) ->
  forall t, t ∈ R -> is_completed t = false.
Proof. intros HP H t Ht. apply H. by rewrite <- HP. Qed.

(** *** Reading back what was written to a file *)

Lemma universal_newlines_no_return s :
  no_return (universal_newlines s) = true.
Proof.
  enough (no_return (universal_newlines s) = true
          /\ forall c, no_return (universal_newlines (String c s)) = true)
    by tauto.
  induction s as [|a s [IH1 IH2]].
  - split; [done|]. intros c. cbn [universal_newlines].
    destruct (Ascii.eqb c carriage_return) eqn:Hc; [done|].
    cbn [no_return]. by rewrite Hc.
  - split; [apply IH2|]. intros c.
    change (universal_newlines (String c (String a s)))
      with (if Ascii.eqb c carriage_return
            then String newline
                   (if Ascii.eqb a newline then universal_newlines s
                    else universal_newlines (String a s))
            else String c (universal_newlines (String a s))).
    destruct (Ascii.eqb c carriage_return) eqn:Hc.
    + cbn [no_return]. change (Ascii.eqb newline carriage_return) with false.
      destruct (Ascii.eqb a newline); [exact IH1|apply IH2].
    + cbn [no_return]. rewrite Hc. apply IH2.
Qed.

Lemma universal_newlines_id s :
  no_return s = true -> universal_newlines s = s.
Proof.
  induction s as [|c s IH]; [done|]. cbn [no_return].
  intros [Hc Hs]%andb_true_iff. apply negb_true_iff in Hc.
  cbn [universal_newlines]. rewrite Hc. by rewrite IH.
Qed.

Lemma no_return_app a b : no_return (a +:+ b) = no_return a && no_return b.
Proof.
  induction a as [|c a IH]; simpl; [done|]. rewrite IH.
  by rewrite andb_assoc.
Qed.

Lemma no_return_lstrip s : no_return s = true -> no_return (lstrip s) = true.
Proof.
  induction s as [|c s IH]; [done|]. cbn [lstrip].
  destruct (is_space c); [|done].
  cbn [no_return]. intros [_ H]%andb_true_iff. auto.
Qed.

Lemma no_return_rstrip s : no_return s = true -> no_return (rstrip s) = true.
Proof.
  induction s as [|c s IH]; [done|]. rewrite rstrip_cons.
  cbn [no_return]. intros [Hc Hs]%andb_true_iff. specialize (IH Hs).
  destruct (rstrip s) as [|c' r].
  - destruct (is_space c); [done|]. cbn [no_return]. by rewrite Hc.
  - cbn [no_return] in *. by rewrite Hc, IH.
Qed.

Lemma no_return_strip s : no_return s = true -> no_return (strip s) = true.
Proof. intros H. by apply no_return_rstrip, no_return_lstrip. Qed.

Lemma no_return_str_from n s :
  no_return s = true -> no_return (str_from n s) = true.
Proof.
  revert s. induction n as [|n IH]; intros [|c s]; try done.
  cbn [no_return str_from]. intros [_ H]%andb_true_iff. auto.
Qed.

Lemma split_nl_lines_no_return s :
  no_return s = true -> Forall (fun l => no_return l = true) (split_nl s).
Proof.
  induction s as [|c s IH]; [by repeat constructor|].
  cbn [no_return]. intros [Hc Hs]%andb_true_iff. specialize (IH Hs).
  rewrite split_nl_cons. destruct (Ascii.eqb c newline).
  - by constructor.
  - destruct (split_nl s) as [|l ls].
    + constructor; [|constructor]. cbn [no_return]. by rewrite Hc.
    + apply Forall_cons in IH as [Hl Hls]. constructor; [|done].
      cbn [no_return]. by rewrite Hc, Hl.
Qed.

Lemma no_return_join lines :
  Forall (fun l => no_return l = true) lines -> no_return (join_nl lines) = true.
Proof.
  induction 1 as [|l ls Hl Hls IH]; [done|].
  destruct ls as [|l' ls]; [done|].
  change (join_nl (l :: l' :: ls))
    with (l +:+ String newline (join_nl (l' :: ls))).
  rewrite no_return_app, Hl. cbn [no_return]. by rewrite IH.
Qed.

Lemma no_return_file_text lines :
  Forall (fun l => no_return l = true) lines ->
  no_return (file_text lines) = true.
Proof.
  intros H. destruct lines as [|l ls]; [done|].
  unfold file_text. rewrite no_return_app, no_return_join by done.
  reflexivity.
Qed.

Lemma is_digit_no_return c :
  is_digit c = true -> Ascii.eqb c carriage_return = false.
Proof. ascii_cases c; vm_compute; intros; done. Qed.

Lemma pad2_no_return n : 0 <= n < 100 -> no_return (pad2 n) = true.
Proof.
  intros H. destruct (digits_of_field n H) as [H1 H2].
  apply is_digit_no_return in H1, H2.
  unfold pad2. cbn [no_return]. by rewrite H1, H2.
Qed.

Lemma digit_char_no_return k :
  0 <= k < 10 -> Ascii.eqb (digit_char k) carriage_return = false.
Proof. intros H. by apply digit_char_is_digit, is_digit_no_return in H. Qed.

Lemma year_text_no_return y :
  1 <= y <= 9999 -> no_return (year_text y) = true.
Proof.
  intros H. unfold year_text.
  destruct (Z.ltb_spec y 10); [|destruct (Z.ltb_spec y 100);
    [|destruct (Z.ltb_spec y 1000)]].
  - cbn [no_return]. by rewrite digit_char_no_return by lia.
  - apply pad2_no_return. lia.
  - cbn [no_return]. rewrite digit_char_no_return
      by (split; [apply Z.div_pos|apply Z.div_lt_upper_bound]; lia).
    apply pad2_no_return, Z.mod_pos_bound. lia.
  - unfold pad4. cbn [no_return].
    rewrite !digit_char_no_return.
    + apply pad2_no_return, Z.mod_pos_bound. lia.
    + apply Z.mod_pos_bound. lia.
    + split; [apply Z.div_pos|apply Z.div_lt_upper_bound]; lia.
Qed.

Lemma day_abbr_no_return d :
  no_return (nth (Z.to_nat (weekday d)) day_abbr "") = true.
Proof.
  pose proof (weekday_range d) as Hw.
  assert (exists k, Z.to_nat (weekday d) = k /\ (k < 7)%nat) as (k & -> & Hk)
    by (eexists; split; [done|lia]).
  do 7 (destruct k as [|k]; [reflexivity|]). lia.
Qed.

Lemma strftime_no_return d :
  valid_datetime d = true -> no_return (strftime d) = true.
Proof.
  intros Hv.
  apply valid_datetime_bounds in Hv as (Hy & Hm & Hd & HH & HM & _ & _).
  pose proof (days_in_month_le_31 (year d) (month d)) as H31.
  unfold strftime. rewrite !no_return_app.
  rewrite year_text_no_return, !pad2_no_return, day_abbr_no_return by lia.
  reflexivity.
Qed.

(** A task whose lines have no carriage return. *)
Lemma format_no_return t :
  no_return (content t) = true -> valid_datetime (timestamp t) = true ->
  Forall (fun l => no_return l = true) (BeOrgParser.format_task t)
  /\ Forall (fun l => no_return l = true) (JournellyParser.format_task t).
Proof.
  intros Hc Hv. pose proof (strftime_no_return _ Hv) as Hts.
  unfold BeOrgParser.format_task, JournellyParser.format_task.
  split; repeat (apply Forall_cons; split); try (by apply Forall_nil);
    rewrite !no_return_app, ?Hc, ?Hts; by destruct (is_completed t).
Qed.

Lemma write_file_no_return T :
  Forall (fun t => no_return (content t) = true
                   /\ valid_datetime (timestamp t) = true) T ->
  no_return (write_file BeOrgParser._format_tasks T) = true
  /\ no_return (write_file JournellyParser._format_tasks T) = true.
Proof.
  intros HT.
  assert (Forall (fun t => no_return (content t) = true
                           /\ valid_datetime (timestamp t) = true)
            (sorted_desc T)) as HS by (by rewrite sorted_desc_perm).
  unfold write_file, BeOrgParser._format_tasks, JournellyParser._format_tasks.
  split; apply no_return_file_text, Forall_flat_map_intro;
    (eapply Forall_impl; [exact HS|]); intros t [Hc Hv];
    by destruct (format_no_return t Hc Hv).
Qed.

(** The contents parsed from a text without carriage return have
    none. *)
Lemma beorg_parsed_no_return w text tasks w' :
  no_return text = true ->
  BeOrgParser._parse_tasks w text = Some (tasks, w') ->
  Forall (fun t => no_return (content t) = true) tasks.
Proof.
  unfold BeOrgParser._parse_tasks. intros Ht H.
  pose proof (split_nl_lines_no_return _ (no_return_strip _ Ht)) as Hlines.
  change tasks with (fst (tasks, w')).
  eapply (scan_Forall BeOrgParser._parse_task_from_line); [|done|exact H].
  intros w0 l i t n w1 Hl.
  assert (no_return l = true) as Hnl.
  { eapply (proj1 (Forall_forall _ _) Hlines).
    by eapply list_elem_of_lookup_2. }
  unfold BeOrgParser._parse_task_from_line,
    BeOrgParser._parse_beorg_timestamp_and_create_task.
  destruct (negb _); [done|].
  destruct (_ !! (i + 1)%nat) as [l'|]; [|done].
  destruct (re_match_group _ _ _ (strip l')) as [ts|]; [|done].
  destruct (strptime ts) as [d|]; [|done].
  intros Heq.
  assert (t = _create_task_and_log (str_from 7 (strip l)) d
                (startswith "* DONE " (strip l))) as -> by congruence.
  cbn [_create_task_and_log content].
  by apply no_return_str_from, no_return_strip.
Qed.

Lemma journelly_parsed_no_return w text tasks w' :
  no_return text = true ->
  JournellyParser._parse_tasks w text = Some (tasks, w') ->
  Forall (fun t => no_return (content t) = true) tasks.
Proof.
  unfold JournellyParser._parse_tasks. intros Ht H.
  pose proof (split_nl_lines_no_return _ (no_return_strip _ Ht)) as Hlines.
  change tasks with (fst (tasks, w')).
  eapply (scan_Forall JournellyParser._parse_journelly_task_from_line);
    [|done|exact H].
  intros w0 l i t n w1 _.
  unfold JournellyParser._parse_journelly_task_from_line.
  destruct (re_match_group _ _ _ (strip l)) as [ts|]; [|done].
  destruct (strptime ts) as [d|]; [|done].
  destruct (_ !! (i + 1)%nat) as [l'|] eqn:El; [|done].
  destruct (_ || _); [|done].
  intros Heq.
  assert (t = _create_task_and_log (str_from 6 (strip l')) d
                (startswith "- [X] " (strip l'))) as -> by congruence.
  cbn [_create_task_and_log content].
  apply no_return_str_from, no_return_strip.
  eapply (proj1 (Forall_forall _ _) Hlines).
  by eapply list_elem_of_lookup_2.
Qed.

(** What [parse_file] returns: tasks that can be written back, with
    no carriage return in their contents. *)
Lemma parse_file_no_return fs w filepath tasks w' :
  BaseParser.parse_file BeOrgParser._parse_tasks fs w filepath
    = Some (inr (tasks, w'))
  \/ BaseParser.parse_file JournellyParser._parse_tasks fs w filepath
    = Some (inr (tasks, w')) ->
  Forall (fun t => no_return (content t) = true) tasks.
Proof.
  unfold BaseParser.parse_file, fs_read.
  destruct (decide _); [by intros [|]|].
  destruct (files fs !! filepath) as [text|].
  - pose proof (universal_newlines_no_return text) as Hn.
    intros [H|H];
      [destruct (BeOrgParser._parse_tasks w _) as [[ts ws]|] eqn:E
      |destruct (JournellyParser._parse_tasks w _) as [[ts ws]|] eqn:E];
      try done; cbn in H;
      (assert (ts = tasks) as -> by congruence);
      eauto using beorg_parsed_no_return, journelly_parsed_no_return.
  - intros [H|H]; (assert (tasks = []) as -> by congruence); constructor.
Qed.

(** A property of contents and one of timestamps that the tasks of
    both collections have, the tasks [synchronize] returns have. *)
Lemma emitted_fields (Pc : string -> Prop) (Pt : datetime -> Prop) A B c t :
  Forall (fun t => Pc (content t) /\ Pt (timestamp t)) A ->
  Forall (fun t => Pc (content t) /\ Pt (timestamp t)) B ->
  t ∈ emitted (TaskSynchronizer.by_content A) (TaskSynchronizer.by_content B) c ->
  Pc (content t) /\ Pt (timestamp t).
Proof.
  intros HA HB. unfold emitted, TaskSynchronizer.sync_step.
  assert (forall L u, Forall (fun t => Pc (content t) /\ Pt (timestamp t)) L ->
            TaskSynchronizer.by_content L !! c = Some u ->
            (Pc (content u) /\ Pt (timestamp u)) /\ content u = c) as Hlook.
  { intros L u HL Hu. split; [|by eapply by_content_key].
    eapply (proj1 (Forall_forall _ _) HL). by eapply by_content_elem. }
  destruct (TaskSynchronizer.by_content A !! c) as [ta|] eqn:Ea,
           (TaskSynchronizer.by_content B !! c) as [tb|] eqn:Eb; cbn.
  - destruct (Hlook A ta HA Ea) as [[Ca Ta] Ka],
             (Hlook B tb HB Eb) as [[_ Tb] _].
    destruct (is_completed ta || is_completed tb);
      intros Hin; [by apply not_elem_of_nil in Hin|].
    apply list_elem_of_singleton in Hin as ->.
    cbn [content timestamp]. rewrite <- Ka. split; [done|].
    by destruct (py_min_cases (timestamp ta) (timestamp tb)) as [-> | ->].
  - destruct (Hlook A ta HA Ea) as [Sa _].
    destruct (is_completed ta); intros Hin;
      [by apply not_elem_of_nil in Hin|].
    by apply list_elem_of_singleton in Hin as ->.
  - destruct (Hlook B tb HB Eb) as [Sb _].
    destruct (is_completed tb); intros Hin;
      [by apply not_elem_of_nil in Hin|].
    by apply list_elem_of_singleton in Hin as ->.
  - intros Hin. by apply not_elem_of_nil in Hin.
Qed.

Lemma flat_map_emitted_fields (Pc : string -> Prop) (Pt : datetime -> Prop)
    A B order :
  Forall (fun t => Pc (content t) /\ Pt (timestamp t)) A ->
  Forall (fun t => Pc (content t) /\ Pt (timestamp t)) B ->
  Forall (fun t => Pc (content t) /\ Pt (timestamp t))
    (flat_map (emitted (TaskSynchronizer.by_content A)
                 (TaskSynchronizer.by_content B)) order).
Proof.
  intros HA HB. apply Forall_forall. intros t (c & _ & Hin)%flat_map_elem.
  exact (emitted_fields Pc Pt A B c t HA HB Hin).
Qed.

Lemma Forall_and {X} (P Q : X -> Prop) l :
  Forall P l -> Forall Q l -> Forall (fun x => P x /\ Q x) l.
Proof.
  induction 1 as [|x l Hx Hl IH]; intros HQ; [constructor|].
  apply Forall_cons in HQ as [Qx Ql]. constructor; auto.
Qed.

Section run_extras.

(** X12.  A missing file is read like a blank one: for both parsers
    [parse_file] returns no task and leaves the warnings as they are,
    when the file does not exist and when it holds only whitespace. *)
Theorem missing_file_reads_as_blank (fs fs' : file_system)
    (filepath text : string) (w : list string) :
  fs_read fs filepath = FileNotFoundError ->
  fs_read fs' filepath = Contents text ->
  strip text = "" ->
  BaseParser.parse_file BeOrgParser._parse_tasks fs w filepath
    = Some (inr ([], w))
  /\ BaseParser.parse_file BeOrgParser._parse_tasks fs' w filepath
    = Some (inr ([], w))
  /\ BaseParser.parse_file JournellyParser._parse_tasks fs w filepath
    = Some (inr ([], w))
  /\ BaseParser.parse_file JournellyParser._parse_tasks fs' w filepath
    = Some (inr ([], w)).
Proof.
  intros Hmiss Hthere Hblank. unfold BaseParser.parse_file.
  rewrite Hmiss, Hthere.
  unfold BeOrgParser._parse_tasks, JournellyParser._parse_tasks.
  rewrite Hblank. repeat split; reflexivity.
Qed.

Lemma missing_file_reads_as_blank_witness :
  BaseParser.parse_file BeOrgParser._parse_tasks
    (mk_fs {["inbox.org" := "  "]} ∅ ∅) [] "inbox.org"
  = Some (inr ([], [])).
Proof.
  refine (proj1 (proj2 (missing_file_reads_as_blank (mk_fs ∅ ∅ ∅)
    (mk_fs {["inbox.org" := "  "]} ∅ ∅) "inbox.org" "  " [] _ _ _))).
  - vm_compute. reflexivity.
  - vm_compute. reflexivity.
  - vm_compute. reflexivity.
Defined.

(** X13.  When one of the two files cannot be read, [main] ends with
    status 1 and has written nothing: the file system is as before,
    and no warning was printed. *)
Theorem main_read_failure (order : list string) (fs : file_system)
    (beorg_file journelly_file : string) :
  beorg_file <> "" -> journelly_file <> "" ->
  fs_read fs beorg_file = IOError \/ fs_read fs journelly_file = IOError ->
  main order fs beorg_file journelly_file = Some (mk_run 1 fs []).
Proof.
  intros Hb%String.eqb_neq Hj%String.eqb_neq Hfail. unfold main.
  rewrite Hb, Hj. cbn [orb].
  destruct (fs_read fs beorg_file) eqn:Rb.
  - destruct Hfail as [|Rj]; [done|].
    unfold BaseParser.parse_file. by rewrite Rb, Rj.
  - unfold BaseParser.parse_file. by rewrite Rb.
  - destruct Hfail as [|Rj]; [done|].
    unfold BaseParser.parse_file at 1. rewrite Rb.
    destruct (beorg_parse_total [] text) as (tasks & w' & ->). cbn.
    unfold BaseParser.parse_file. by rewrite Rj.
Qed.

Lemma main_read_failure_witness :
  let fs := mk_fs {["j.org" := "* [2024-01-01 Mon 10:00] @ -"]} {["b.org"]} ∅ in
  main [] fs "b.org" "j.org" = Some (mk_run 1 fs []).
Proof.
  intros fs. refine (main_read_failure [] fs "b.org" "j.org" _ _ _).
  - discriminate.
  - discriminate.
  - left. vm_compute. reflexivity.
Defined.

(** X14.  After a run in which both files can be read and written,
    the two paths reading differently before the run (so they are two
    files, not two names of one) and no task read being dated before
    the year 1000, [main] ends with status 0 and the two files hold
    the same tasks: each parser reads from its file the same list,
    latest first, with no warning and no completed task; no other
    file is touched. *)
Theorem main_leaves_files_in_sync (order : list string) (fs : file_system)
    (beorg_file journelly_file : string) :
  beorg_file <> "" -> journelly_file <> "" ->
  fs_read fs beorg_file <> fs_read fs journelly_file ->
  beorg_file ∉ unreadable fs -> journelly_file ∉ unreadable fs ->
  beorg_file ∉ unwritable fs -> journelly_file ∉ unwritable fs ->
  (forall tasks w,
      BaseParser.parse_file BeOrgParser._parse_tasks fs [] beorg_file
      = Some (inr (tasks, w)) ->
      Forall (fun t => 1000 <= year (timestamp t)) tasks) ->
  (forall tasks w,
      BaseParser.parse_file JournellyParser._parse_tasks fs [] journelly_file
      = Some (inr (tasks, w)) ->
      Forall (fun t => 1000 <= year (timestamp t)) tasks) ->
  exists run R,
    main order fs beorg_file journelly_file = Some run
    /\ exit_status run = 0
    /\ BaseParser.parse_file BeOrgParser._parse_tasks (fs_after run) []
         beorg_file = Some (inr (R, []))
    /\ BaseParser.parse_file JournellyParser._parse_tasks (fs_after run) []
         journelly_file = Some (inr (R, []))
    /\ descending R
    /\ (forall t, t ∈ R -> is_completed t = false)
    /\ (forall p, p <> beorg_file -> p <> journelly_file ->
          files (fs_after run) !! p = files fs !! p).
Proof.
  intros Hb%String.eqb_neq Hj%String.eqb_neq Hdiff Rb Rj Wb Wj Yb Yj.
  assert (beorg_file <> journelly_file) as Hne
    by (intros E; apply Hdiff; by rewrite E).
  unfold main. rewrite Hb, Hj. cbn [orb].
  destruct (beorg_parse_file_ok fs [] beorg_file (fs_read_readable _ _ Rb))
    as (bt & w1 & Eb & Sb).
  destruct (journelly_parse_file_ok fs [] journelly_file
              (fs_read_readable _ _ Rj)) as (jt & w2 & Ej & Sj).
  pose proof (parse_file_no_return _ _ _ _ _ (or_introl Eb)) as Nb.
  pose proof (parse_file_no_return _ _ _ _ _ (or_intror Ej)) as Nj.
  specialize (Yb _ _ Eb). specialize (Yj _ _ Ej).
  rewrite Eb, Ej. rewrite synchronize_emitted.
  set (R0 := flat_map (emitted (TaskSynchronizer.by_content bt)
                         (TaskSynchronizer.by_content jt)) order).
  assert (Forall (fun t => storable t = true) R0) as HS0
    by (by apply flat_map_emitted_storable).
  assert (Forall (fun t => no_return (content t) = true
                           /\ 1000 <= year (timestamp t)) R0) as HF0
    by (apply (flat_map_emitted_fields
                 (fun c => no_return c = true) (fun d => 1000 <= year d));
        by apply Forall_and).
  assert (Forall (fun t => legible t = true) (sorted_desc R0)) as HL.
  { eapply legible_perm; [apply sorted_desc_perm|].
    apply storable_legible; [done|].
    eapply Forall_impl; [exact HF0|]. by intros t [_ ?]. }
  assert (Forall (fun t => no_return (content t) = true
                           /\ valid_datetime (timestamp t) = true) R0) as HV.
  { eapply Forall_impl; [exact (Forall_and _ _ _ HS0 HF0)|].
    intros t [(_ & _ & Hv & _)%storable_inv [Hn _]]. by split. }
  destruct (write_file_no_return R0 HV) as [NWb NWj].
  unfold BaseParser.write_file, fs_write. cbn [unwritable].
  rewrite !decide_False by done.
  eexists _, (sorted_desc R0). split; [reflexivity|].
  cbn [exit_status fs_after]. split; [done|].
  unfold BaseParser.parse_file, fs_read. cbn [unreadable files].
  rewrite !decide_False by done.
  rewrite lookup_insert_ne by done. rewrite !lookup_insert_eq.
  rewrite !universal_newlines_id by done.
  unfold write_file.
  rewrite beorg_roundtrip, journelly_roundtrip by done.
  repeat split; try done.
  - apply sorted_desc_descending.
  - eapply incomplete_perm; [apply sorted_desc_perm|].
    intros t (c & _ & Hin)%flat_map_elem. by eapply emitted_incomplete.
  - intros p Hpb Hpj. by rewrite !lookup_insert_ne.
Qed.

Lemma main_leaves_files_in_sync_witness :
  exists run R,
    main ["Buy milk"]
      (mk_fs {["b.org" := "* TODO Buy milk" +:+ String newline
                           "[2024-01-05 Fri 10:00]"]} ∅ ∅) "b.org" "j.org"
    = Some run
    /\ exit_status run = 0
    /\ BaseParser.parse_file BeOrgParser._parse_tasks (fs_after run) []
         "b.org" = Some (inr (R, []))
    /\ BaseParser.parse_file JournellyParser._parse_tasks (fs_after run) []
         "j.org" = Some (inr (R, [])).
Proof.
  destruct (main_leaves_files_in_sync ["Buy milk"]
    (mk_fs {["b.org" := "* TODO Buy milk" +:+ String newline
                         "[2024-01-05 Fri 10:00]"]} ∅ ∅) "b.org" "j.org")
    as (run & R & H1 & H2 & H3 & H4 & _);
    try discriminate; try (cbn; apply not_elem_of_empty).
  - intros tasks w H. vm_compute in H. injection H as <- <-.
    repeat constructor. cbn. lia.
  - intros tasks w H. vm_compute in H. injection H as <- <-. constructor.
  - exists run, R. auto.
Defined.

(** X15.  When the inbox file cannot be opened for writing, [main]
    ends with status 1 without writing the journal file either: the
    file system is as before. *)
Theorem main_first_write_fails (order : list string) (fs : file_system)
    (beorg_file journelly_file : string) :
  beorg_file <> "" -> journelly_file <> "" ->
  beorg_file ∉ unreadable fs -> journelly_file ∉ unreadable fs ->
  beorg_file ∈ unwritable fs ->
  exists run,
    main order fs beorg_file journelly_file = Some run
    /\ exit_status run = 1 /\ fs_after run = fs.
Proof.
  intros Hb%String.eqb_neq Hj%String.eqb_neq Rb Rj Wb. unfold main.
  rewrite Hb, Hj. cbn [orb].
  destruct (beorg_parse_file_ok fs [] beorg_file (fs_read_readable _ _ Rb))
    as (bt & w1 & -> & Sb).
  destruct (journelly_parse_file_ok fs [] journelly_file
              (fs_read_readable _ _ Rj)) as (jt & w2 & -> & Sj).
  rewrite synchronize_emitted.
  unfold BaseParser.write_file, fs_write.
  rewrite decide_True by done. eauto.
Qed.

Lemma main_first_write_fails_witness :
  exists run,
    main [] (mk_fs ∅ ∅ {["b.org"]}) "b.org" "j.org" = Some run
    /\ exit_status run = 1 /\ fs_after run = mk_fs ∅ ∅ {["b.org"]}.
Proof.
  refine (main_first_write_fails [] (mk_fs ∅ ∅ {["b.org"]}) "b.org" "j.org"
            _ _ _ _ _); try discriminate;
    try (cbn; apply not_elem_of_empty).
  cbn. by apply elem_of_singleton.
Defined.

(** X16.  When the journal file cannot be opened for writing but the
    inbox file can, [main] ends with status 1 after the inbox file was
    rewritten: the inbox file holds the synchronized tasks, the
    journal file is as before, and the two may now disagree. *)
Theorem main_second_write_fails (order : list string) (fs : file_system)
    (beorg_file journelly_file : string) :
  beorg_file <> "" -> journelly_file <> "" ->
  beorg_file <> journelly_file ->
  beorg_file ∉ unreadable fs -> journelly_file ∉ unreadable fs ->
  beorg_file ∉ unwritable fs -> journelly_file ∈ unwritable fs ->
  exists run bt w1 jt w2,
    main order fs beorg_file journelly_file = Some run
    /\ exit_status run = 1
    /\ BaseParser.parse_file BeOrgParser._parse_tasks fs [] beorg_file
       = Some (inr (bt, w1))
    /\ BaseParser.parse_file JournellyParser._parse_tasks fs [] journelly_file
       = Some (inr (jt, w2))
    /\ files (fs_after run) !! beorg_file
       = Some (write_file BeOrgParser._format_tasks
                 (fst (TaskSynchronizer.synchronize order bt jt)))
    /\ files (fs_after run) !! journelly_file = files fs !! journelly_file.
Proof.
  intros Hb%String.eqb_neq Hj%String.eqb_neq Hne Rb Rj Wb Wj. unfold main.
  rewrite Hb, Hj. cbn [orb].
  destruct (beorg_parse_file_ok fs [] beorg_file (fs_read_readable _ _ Rb))
    as (bt & w1 & -> & Sb).
  destruct (journelly_parse_file_ok fs [] journelly_file
              (fs_read_readable _ _ Rj)) as (jt & w2 & -> & Sj).
  rewrite synchronize_emitted.
  unfold BaseParser.write_file, fs_write. cbn [unwritable].
  rewrite decide_False by done. rewrite decide_True by done.
  eexists _, bt, w1, jt, w2. split; [reflexivity|].
  rewrite synchronize_emitted. cbn [exit_status fs_after files fst].
  repeat split; try done.
  - by rewrite lookup_insert_eq.
  - by rewrite lookup_insert_ne.
Qed.

Lemma main_second_write_fails_witness :
  exists run,
    main [] (mk_fs ∅ ∅ {["j.org"]}) "b.org" "j.org" = Some run
    /\ exit_status run = 1.
Proof.
  destruct (main_second_write_fails [] (mk_fs ∅ ∅ {["j.org"]}) "b.org" "j.org")
    as (run & bt & w1 & jt & w2 & H1 & H2 & _);
    try discriminate; try (cbn; apply not_elem_of_empty).
  - cbn. by apply elem_of_singleton.
  - exists run. auto.
Defined.

End run_extras.

(** ** Timestamps written again *)






(** ** A file in the other format *)

Lemma beorg_file_lines T :
  T <> [] -> Forall (fun t => storable t = true) T ->
  split_nl (strip (file_text (BeOrgParser._format_tasks T)))
  = BeOrgParser._format_tasks T.
Proof.
  intros Hne HT. destruct T as [|t T]; [done|].
  unfold BeOrgParser._format_tasks.
  assert (Forall (fun l => ends_nonspace l = true)
            (flat_map BeOrgParser.format_task (t :: T))) as He.
  { apply Forall_flat_map_intro. eapply Forall_impl; [exact HT|].
    intros t' Ht'.
    by destruct (beorg_format_lines t' Ht') as (? & ? & ? & ? & ?). }
  assert (Forall (fun l => no_newline l = true)
            (flat_map BeOrgParser.format_task (t :: T))) as Hn.
  { apply Forall_flat_map_intro. eapply Forall_impl; [exact HT|].
    intros t' Ht'.
    by destruct (beorg_format_lines t' Ht') as (? & ? & ? & ? & ?). }
  apply Forall_cons in HT as [Ht _].
  destruct (beorg_format_lines t Ht) as (s1 & s2 & Heq & _).
  cbn [flat_map] in *. rewrite Heq in *. cbn [app] in *.
  by apply split_strip_file_text.
Qed.

Lemma journelly_file_lines T :
  T <> [] -> Forall (fun t => storable t = true) T ->
  split_nl (strip (file_text (JournellyParser._format_tasks T)))
  = JournellyParser._format_tasks T.
Proof.
  intros Hne HT. destruct T as [|t T]; [done|].
  unfold JournellyParser._format_tasks.
  assert (Forall (fun l => ends_nonspace l = true)
            (flat_map JournellyParser.format_task (t :: T))) as He.
  { apply Forall_flat_map_intro. eapply Forall_impl; [exact HT|].
    intros t' Ht'.
    by destruct (journelly_format_lines t' Ht') as (? & ? & ? & ? & ?). }
  assert (Forall (fun l => no_newline l = true)
            (flat_map JournellyParser.format_task (t :: T))) as Hn.
  { apply Forall_flat_map_intro. eapply Forall_impl; [exact HT|].
    intros t' Ht'.
    by destruct (journelly_format_lines t' Ht') as (? & ? & ? & ? & ?). }
  apply Forall_cons in HT as [Ht _].
  destruct (journelly_format_lines t Ht) as (s1 & s2 & Heq & _).
  cbn [flat_map] in *. rewrite Heq in *. cbn [app] in *.
  by apply split_strip_file_text.
Qed.

Lemma journelly_lines_no_beorg_header T l :
  Forall (fun t => storable t = true) T ->
  l ∈ JournellyParser._format_tasks T ->
  BeOrgParser.is_header (strip l) = false.
Proof.
  intros HT (t & Ht & Hl)%flat_map_elem.
  pose proof (proj1 (Forall_forall _ _) HT t Ht) as Hst. cbv beta in Hst.
  destruct (journelly_format_lines t Hst) as (s1 & s2 & _ & He & _).
  pose proof (proj1 (Forall_forall _ _) He l Hl) as Hle. cbv beta in Hle.
  unfold JournellyParser.format_task in Hl.
  apply elem_of_cons in Hl as [->|Hl];
    [|apply list_elem_of_singleton in Hl as ->];
    (rewrite strip_id; [reflexivity|reflexivity|exact Hle]).
Qed.

Lemma beorg_lines_no_journelly_header T l :
  Forall (fun t => storable t = true) T ->
  l ∈ BeOrgParser._format_tasks T ->
  JournellyParser.header_match (strip l) = None.
Proof.
  intros HT (t & Ht & Hl)%flat_map_elem.
  pose proof (proj1 (Forall_forall _ _) HT t Ht) as Hst. cbv beta in Hst.
  destruct (beorg_format_lines t Hst) as (s1 & s2 & _ & He & _).
  pose proof (proj1 (Forall_forall _ _) He l Hl) as Hle. cbv beta in Hle.
  unfold BeOrgParser.format_task in Hl.
  apply elem_of_cons in Hl as [->|Hl];
    [|apply list_elem_of_singleton in Hl as ->];
    (rewrite strip_id; [|reflexivity|exact Hle]);
    [by destruct (is_completed t)|reflexivity].
Qed.

(** X18.  Neither parser reads anything from a file written in the
    other format: the inbox parser finds no task and gives no warning
    on the text written for the journal, and conversely (for tasks
    that the formats can carry). *)
Theorem formats_do_not_mix (T : list Task) (w : list string) :
  Forall (fun t => storable t = true) T ->
  BeOrgParser._parse_tasks w (file_text (JournellyParser._format_tasks T))
    = Some ([], w)
  /\ JournellyParser._parse_tasks w (file_text (BeOrgParser._format_tasks T))
    = Some ([], w).
Proof.
  intros HT. destruct T as [|t T]; [split; reflexivity|]. split.
  - unfold BeOrgParser._parse_tasks.
    rewrite journelly_file_lines by done.
    apply scan_skip; [|lia]. intros l w0 lines' i Hl.
    apply beorg_not_header. by eapply journelly_lines_no_beorg_header.
  - unfold JournellyParser._parse_tasks.
    rewrite beorg_file_lines by done.
    apply scan_skip; [|lia]. intros l w0 lines' i Hl.
    apply journelly_not_header. by eapply beorg_lines_no_journelly_header.
Qed.

Lemma formats_do_not_mix_witness :
  let T := [mk_Task "Buy milk" (mk_datetime 2024 1 1 10 0 0 0) false] in
  BeOrgParser._parse_tasks [] (file_text (JournellyParser._format_tasks T))
  = Some ([], []).
Proof.
  intros T. refine (proj1 (formats_do_not_mix T [] _)). repeat constructor.
Defined.
